(** * ArrayNode: fan-out execution of a launch plan over mapped inputs

    A shallow embedding of [flytekit/core/array_node.py] (class [ArrayNode],
    methods [__init__] and [local_execute]) together with the properties of
    its partial-success budget, input distribution and result aggregation. *)

From Stdlib Require Import ZArith Lia.
From Stdlib Require Import Floats.SpecFloat.
From stdpp Require Import gmap strings list pretty.

Set Warnings "-register-all".

Local Open Scope Z_scope.

(** ** Python exceptions and fallible computations *)

Inductive exc : Type :=
  | ValueError (msg : string)
  | KeyError (key : string)
  | IndexError (msg : string)
  | TypeError (msg : string)
  | OverflowError (msg : string)
  | PlainException (msg : string)
  | TaskFailure (code : Z).

Inductive result (A : Type) : Type :=
  | Ok (a : A)
  | Raise (e : exc).
Arguments Ok {A} a.
Arguments Raise {A} e.

Definition bind {A B : Type} (r : result A) (k : A -> result B) : result B :=
  match r with
  | Ok a => k a
  | Raise e => Raise e
  end.

Notation "x <- r ;; k" := (bind r (fun x => k))
  (at level 100, r at next level, right associativity).

(** ** Python floats: IEEE-754 binary64 *)

Module PyFloat.

Definition prec : Z := 53.
Definition emax : Z := 1024.

Definition float : Type := spec_float.

(** [float(n)] for a Python int: the nearest double, ties to even.  The
    argument is a list length in this program, far below the overflow
    bound of the conversion. *)
Definition of_int (n : Z) : float := binary_normalize prec emax n 0 false.

Definition mul (x y : float) : float := SFmul prec emax x y.
Definition div (x y : float) : float := SFdiv prec emax x y.

(** Truth value of a float: everything but the two zeros, NaN included. *)
Definition truthy (f : float) : bool :=
  match f with
  | S754_zero _ => false
  | _ => true
  end.

(** [f == n] for a float and an int that a double represents exactly. *)
Definition eqb_int (f : float) (n : Z) : bool := SFeqb f (of_int n).

(** [math.ceil(f)]. *)
Definition ceil (f : float) : result Z :=
  match f with
  | S754_zero _ => Ok 0
  | S754_infinity _ => Raise (OverflowError "cannot convert float infinity to integer")
  | S754_nan => Raise (ValueError "cannot convert float NaN to integer")
  | S754_finite s m e =>
      Ok (match e with
          | Zneg p =>
              if s then - (Zpos m / 2 ^ Zpos p)
              else - ((- Zpos m) / 2 ^ Zpos p)
          | _ => (if s then - Zpos m else Zpos m) * 2 ^ e
          end)
  end.

Definition is_finite (f : float) : bool :=
  match f with
  | S754_zero _ | S754_finite _ _ _ => true
  | _ => false
  end.

(** The double 1.0. *)
Definition one : float := S754_finite false 4503599627370496 (-52).

(** The double that Python reads from the decimal literal [num/den]:
    both are exact doubles and the division is correctly rounded. *)
Definition literal (num den : Z) : float := div (of_int num) (of_int den).

End PyFloat.

(** ** Native values, declared types, literals *)

(** Native Python values that reach the node as keyword arguments. *)
Inductive pyval : Type :=
  | PNone
  | PInt (z : Z)
  | PStr (s : string)
  | PList (items : list pyval).

(** Declared types of an interface. *)
Inductive pytype : Type :=
  | T_int
  | T_str
  | T_List (t : pytype)
  | T_Optional (t : pytype).

Inductive Scalar : Type :=
  | Primitive_integer (z : Z)
  | Primitive_string (s : string)
  | None_type.

Inductive Literal : Type :=
  | Literal_scalar (scalar : Scalar)
  | Literal_collection (literals : list Literal).

(** [Literal(scalar=Scalar(none_type=Void()))] *)
Definition literal_with_none : Literal := Literal_scalar None_type.

Record Promise : Type := mkPromise { var : string; val : Literal }.

(** What [local_execute] returns. *)
Inductive call_value : Type :=
  | APromise (p : Promise)
  | VoidPromise (name : string).

(** An interface: ordered dictionaries from names to declared types. *)
Record Interface : Type := mkInterface {
  inputs : list (string * pytype);
  outputs : list (string * pytype)
}.

Definition keys {V : Type} (d : list (string * V)) : list string := map fst d.

(** [d[k]] on an ordered dictionary. *)
Fixpoint getitem {V : Type} (d : list (string * V)) (k : string) : result V :=
  match d with
  | [] => Raise (KeyError k)
  | (k', v) :: d' => if decide (k' = k) then Ok v else getitem d' k
  end.

(** ** Entities and metadata *)

Inductive entity_kind : Type :=
  | LaunchPlan
  | PythonTask
  | Workflow.

Record Entity : Type := mkEntity {
  kind : entity_kind;
  name : string;
  python_interface : Interface
}.

Inductive metadata_variant : Type :=
  | NodeMetadata (node_name : string)
  | TaskMetadata (retries : Z).

(** Modelled from the spec: [transform_interface_to_list_interface] of
    [flytekit.core.interface] is outside the sources at hand.  Every input
    that is not bound becomes an ordered collection of its type, bound inputs
    are left as they are, and every output becomes a collection of its type,
    or of the Optional of its type when the flag is set. *)
Definition transform_types_to_list_of_type
    (m : list (string * pytype)) (bound_inputs : gset string) (optional : bool)
    : list (string * pytype) :=
  map (fun kv : string * pytype =>
         let (k, t) := kv in
         if decide (k ∈ bound_inputs) then (k, t)
         else (k, T_List (if optional then T_Optional t else t))) m.

Definition transform_interface_to_list_interface
    (interface : Interface) (bound_inputs : gset string) (optional_outputs : bool)
    : Interface :=
  {| inputs := transform_types_to_list_of_type (inputs interface) bound_inputs false;
     outputs := transform_types_to_list_of_type (outputs interface) ∅ optional_outputs |}.

(** ** The node *)

Record ArrayNode : Type := mkArrayNode {
  target : Entity;
  _concurrency : option Z;
  _min_successes : option Z;
  _min_success_ratio : option PyFloat.float;
  _execution_version : option Z;
  id : string;
  _bound_inputs : gset string;
  _collection_interface : Interface;
  metadata : option metadata_variant
}.

(** [min_success_ratio is not None and min_success_ratio != 1 and n_outputs == 1] *)
Definition output_as_list_of_optionals
    (min_success_ratio : option PyFloat.float) (n_outputs : nat) : bool :=
  match min_success_ratio with
  | None => false
  | Some r => negb (PyFloat.eqb_int r 1) && bool_decide (n_outputs = 1%nat)
  end.

(** [ArrayNode.__init__] *)
Definition __init__
    (target : Entity)
    (concurrency : option Z)
    (min_successes : option Z)
    (min_success_ratio : option PyFloat.float)
    (bound_inputs : option (gset string))
    (execution_version : option Z)
    (metadata : option metadata_variant) : result ArrayNode :=
  let n_outputs := length (outputs (python_interface target)) in
  if bool_decide (1 < n_outputs)%nat then
    Raise (ValueError "Only tasks with a single output are supported in map tasks.")
  else
    let bound := default ∅ bound_inputs in
    let collection_interface :=
      transform_interface_to_list_interface (python_interface target) bound
        (output_as_list_of_optionals min_success_ratio n_outputs) in
    match kind target with
    | LaunchPlan =>
        let version := default 1 execution_version in
        if negb (version =? 1) then
          Raise (ValueError "Only execution version 1 is supported for LaunchPlans.")
        else
          md <- match metadata with
                | None => Ok None
                | Some (NodeMetadata n) => Ok (Some (NodeMetadata n))
                | Some (TaskMetadata _) =>
                    Raise (PlainException "Invalid metadata for LaunchPlan. Should be NodeMetadata.")
                end ;;
          Ok {| target := target;
                _concurrency := concurrency;
                _min_successes := min_successes;
                _min_success_ratio := min_success_ratio;
                _execution_version := Some version;
                id := name target;
                _bound_inputs := bound;
                _collection_interface := collection_interface;
                metadata := md |}
    | _ => Raise (PlainException "Only LaunchPlans are supported for now.")
    end.

(** The properties of the node that the enclosing graph reads. *)
Definition node_name (self : ArrayNode) : string := name (target self).
Definition node_python_interface (self : ArrayNode) : Interface := _collection_interface self.

(** ** Python operations used by [local_execute] *)

(** [repr] of a declared type, as an f-string prints it. *)
Fixpoint type_name (t : pytype) : string :=
  match t with
  | T_int => "int"
  | T_str => "str"
  | T_List t' => "typing.List[" +:+ type_name t' +:+ "]"
  | T_Optional t' => "typing.Optional[" +:+ type_name t' +:+ "]"
  end.

Definition type_repr (t : pytype) : string :=
  match t with
  | T_int | T_str => "<class '" +:+ type_name t +:+ "'>"
  | _ => type_name t
  end.

(** [repr(type(v))] *)
Definition class_repr (v : pyval) : string :=
  match v with
  | PNone => "<class 'NoneType'>"
  | PInt _ => "<class 'int'>"
  | PStr _ => "<class 'str'>"
  | PList _ => "<class 'list'>"
  end.

Definition expected_list_message (t : pytype) (v : pyval) : string :=
  "Expected a list of " +:+ type_repr t +:+ " but got " +:+ class_repr v +:+ " instead.".

(** [v[i]] for a non-negative index. *)
Definition subscript (v : pyval) (i : nat) : result pyval :=
  match v with
  | PList items =>
      match items !! i with
      | Some x => Ok x
      | None => Raise (IndexError "list index out of range")
      end
  | PStr s =>
      match String.get i s with
      | Some c => Ok (PStr (String c EmptyString))
      | None => Raise (IndexError "string index out of range")
      end
  | PInt _ => Raise (TypeError "'int' object is not subscriptable")
  | PNone => Raise (TypeError "'NoneType' object is not subscriptable")
  end.

(** [kwargs[k]] *)
Definition kwargs_getitem (kwargs : gmap string pyval) (k : string) : result pyval :=
  match kwargs !! k with
  | Some v => Ok v
  | None => Raise (KeyError k)
  end.

(** [if self._min_successes:] holds for an int other than 0. *)
Definition int_truthy (o : option Z) : bool :=
  match o with
  | Some z => negb (z =? 0)
  | None => false
  end.

(** [elif self._min_success_ratio:] holds for a float other than 0.0. *)
Definition ratio_truthy (o : option PyFloat.float) : bool :=
  match o with
  | Some r => PyFloat.truthy r
  | None => false
  end.

(** Lines 121-126: the effective minimum number of successes. *)
Definition min_successes (self : ArrayNode) (mapped_entity_count : Z) : result Z :=
  let from_ratio :=
    match _min_success_ratio self with
    | Some r =>
        if PyFloat.truthy r
        then PyFloat.ceil (PyFloat.mul (PyFloat.of_int mapped_entity_count) r)
        else Ok mapped_entity_count
    | None => Ok mapped_entity_count
    end in
  match _min_successes self with
  | Some m => if negb (m =? 0) then Ok m else from_ratio
  | None => from_ratio
  end.

(** ** [local_execute] *)

Inductive outcome : Type :=
  | Success (output : Promise)
  | Failed (exc : exc).

(** One call of the target, as the loop made it. *)
Record call_record : Type := mkCall {
  call_index : nat;
  call_inputs : gmap string pyval;
  call_literals : gmap string Promise;
  call_outcome : outcome
}.

(** What the node calls outside itself while it runs. *)
Record Runtime (World : Type) : Type := mkRuntime {
  (** [self.target.__call__] on the keyword arguments [kwargs_literals]:
      returns a promise or raises, and may change the world. *)
  target_call : World -> gmap string Promise -> outcome * World;
  (** [translate_inputs_to_literals] of [flytekit.core.promise], given the
      native values and the target's declared input types. *)
  translate_inputs_to_literals :
    gmap string pyval -> list (string * pytype) -> result (gmap string Literal);
  (** [isinstance(v, t)] when [t] is a subscripted generic of [typing]. *)
  generic_instancecheck : pyval -> pytype -> result bool
}.
Arguments mkRuntime {World} _ _ _.
Arguments target_call {World} _ _ _.
Arguments translate_inputs_to_literals {World} _ _ _.
Arguments generic_instancecheck {World} _ _ _.

Section Execution.

(** The state the target reads and writes when it runs. *)
Context {World : Type} (rt : Runtime World).

Definition isinstance (v : pyval) (t : pytype) : result bool :=
  match t, v with
  | T_int, PInt _ => Ok true
  | T_int, _ => Ok false
  | T_str, PStr _ => Ok true
  | T_str, _ => Ok false
  | _, _ => generic_instancecheck rt v t
  end.

(** The state of the loop: the locals [literals] and [failed_count] of the
    source, the world as the target calls have left it, and the log of these
    calls, oldest first. *)
Record loop_state : Type := mkState {
  literals : list Literal;
  failed_count : Z;
  world : World;
  calls : list call_record
}.

(** Where a piece of the loop ends: at its end, or at an exception. *)

Inductive flow : Type :=
  | Continue (st : loop_state)
  | Raised (e : exc) (st : loop_state).

Section Call.

Variable self : ArrayNode.
Variable kwargs : gmap string pyval.

Definition target_inputs : list (string * pytype) :=
  inputs (python_interface (target self)).

(** [outputs_expected] *)
Definition outputs_expected : bool :=
  match outputs (node_python_interface self) with
  | [] => false
  | _ => true
  end.

(** Lines 109-119: the length of the first mapped input. *)
Fixpoint count_mapped (ks : list string) : result Z :=
  match ks with
  | [] => Ok 0
  | k :: ks' =>
      if decide (k ∈ _bound_inputs self) then count_mapped ks'
      else
        v <- kwargs_getitem kwargs k ;;
        match v with
        | PList (x :: items) =>
            t <- getitem target_inputs k ;;
            b <- isinstance x t ;;
            if b then Ok (Z.of_nat (length (x :: items)))
            else Raise (ValueError (expected_list_message t v))
        | _ =>
            t <- getitem target_inputs k ;;
            Raise (ValueError (expected_list_message t v))
        end
  end.

Definition mapped_entity_count : result Z :=
  count_mapped (keys (inputs (node_python_interface self))).

(** Lines 130-135: the inputs of sub-invocation [i]. *)
Fixpoint fill_inputs (ks : list string) (i : nat) (acc : gmap string pyval)
    : result (gmap string pyval) :=
  match ks with
  | [] => Ok acc
  | k :: ks' =>
      v <- (if decide (k ∈ _bound_inputs self) then kwargs_getitem kwargs k
            else (c <- kwargs_getitem kwargs k ;; subscript c i)) ;;
      fill_inputs ks' i (<[k := v]> acc)
  end.

Definition single_instance_inputs (i : nat) : result (gmap string pyval) :=
  fill_inputs (keys (inputs (node_python_interface self))) i ∅.

(** [{k1: Promise(var=k1, val=v1) for k1, v1 in literal_map.items()}] *)
Definition kwargs_literals (literal_map : gmap string Literal) : gmap string Promise :=
  map_imap (fun k1 v1 => Some (mkPromise k1 v1)) literal_map.

(** Lines 130-159: one round of the loop. *)
Definition loop_body (n min : Z) (i : nat) (st : loop_state) : flow :=
  match single_instance_inputs i with
  | Raise e => Raised e st
  | Ok native =>
      match translate_inputs_to_literals rt native target_inputs with
      | Raise e => Raised e st
      | Ok literal_map =>
          let promises := kwargs_literals literal_map in
          let (out, w) := target_call rt (world st) promises in
          let log := calls st ++ [mkCall i native promises out] in
          match out with
          | Success output =>
              Continue (mkState
                (if outputs_expected then literals st ++ [val output] else literals st)
                (failed_count st) w log)
          | Failed exc =>
              if outputs_expected then
                let st' := mkState (literals st ++ [literal_with_none])
                                   (failed_count st + 1) w log in
                if n - failed_count st' <? min then Raised exc st'
                else Continue st'
              else Continue (mkState (literals st) (failed_count st) w log)
          end
      end
  end.

(** [for i in range(...)], stopping at the first exception. *)
Fixpoint for_range (n min : Z) (indices : list nat) (st : loop_state) : flow :=
  match indices with
  | [] => Continue st
  | i :: rest =>
      match loop_body n min i st with
      | Continue st' => for_range n min rest st'
      | Raised e st' => Raised e st'
      end
  end.

Definition range (n : Z) : list nat := seq 0 (Z.to_nat n).

(** [ArrayNode.local_execute]: the value returned or the exception
    raised, with the state the loop had reached. *)
Definition local_execute (w : World) : result call_value * loop_state :=
  let st0 := mkState [] 0 w [] in
  match mapped_entity_count with
  | Raise e => (Raise e, st0)
  | Ok n =>
      match min_successes self n with
      | Raise e => (Raise e, st0)
      | Ok min =>
          match for_range n min (range n) st0 with
          | Raised e st => (Raise e, st)
          | Continue st =>
              (Ok (if outputs_expected
                   then APromise (mkPromise "o0" (Literal_collection (literals st)))
                   else VoidPromise (node_name self)),
               st)
          end
      end
  end.

End Call.

End Execution.

Arguments loop_state : clear implicits.
Arguments flow : clear implicits.

(** ** The node as its graph and its callers see it *)

Inductive Binding : Type :=
  | mkBinding (binding_var : string) (binding_value : Literal).

Inductive execution_mode : Type :=
  | TASK_EXECUTION
  | LOCAL_WORKFLOW_EXECUTION
  | LOCAL_TASK_EXECUTION
  | DYNAMIC_TASK_EXECUTION.

(** [ArrayNode.construct_node_metadata] *)
Definition construct_node_metadata (self : ArrayNode) : metadata_variant :=
  NodeMetadata (name (target self)).

(** [ArrayNode.bindings] *)
Definition bindings (self : ArrayNode) : list Binding := [].

(** [ArrayNode.upstream_nodes], the nodes named by their ids. *)
Definition upstream_nodes (self : ArrayNode) : list string := [].

(** [ArrayNode.flyte_entity] *)
Definition flyte_entity (self : ArrayNode) : Entity := target self.

(** [ArrayNode.local_execution_mode] *)
Definition local_execution_mode (self : ArrayNode) : execution_mode :=
  LOCAL_TASK_EXECUTION.

(** What [array_node] returns: the closure [callable_entity], holding the
    node and the keyword arguments given when it was made. *)
Record callable_entity_closure : Type := mkClosure {
  closure_node : ArrayNode;
  closure_kwargs : gmap string pyval
}.

(** [array_node], lines 205-214. *)
Definition array_node
    (target : Entity)
    (concurrency : option Z)
    (min_success_ratio : option PyFloat.float)
    (min_successes : option Z)
    (kwargs : gmap string pyval) : result callable_entity_closure :=
  match kind target with
  | LaunchPlan =>
      node <- __init__ target concurrency min_successes min_success_ratio None None None ;;
      Ok (mkClosure node kwargs)
  | _ => Raise (ValueError "Only LaunchPlans are supported for now.")
  end.

(** [callable_entity], lines 210-212: the later keyword arguments win over
    the earlier ones; [flyte_entity_call_handler] is the handler given. *)
Definition callable_entity {R : Type}
    (flyte_entity_call_handler : ArrayNode -> gmap string pyval -> R)
    (closure : callable_entity_closure) (inner_kwargs : gmap string pyval) : R :=
  let combined_kwargs := inner_kwargs ∪ closure_kwargs closure in
  flyte_entity_call_handler (closure_node closure) combined_kwargs.

(** ** A concrete target, for running the model

    The target of the scenarios: [x: int -> int], failing exactly on a
    negative [x]; the world counts the calls made. *)
Module Scenario.

Fixpoint to_literal (v : pyval) (t : pytype) : result Literal :=
  match t, v with
  | T_int, PInt z => Ok (Literal_scalar (Primitive_integer z))
  | T_str, PStr s => Ok (Literal_scalar (Primitive_string s))
  | T_List t', PList items =>
      ls <- (fix each (xs : list pyval) : result (list Literal) :=
               match xs with
               | [] => Ok []
               | x :: xs' => l <- to_literal x t' ;; ls <- each xs' ;; Ok (l :: ls)
               end) items ;;
      Ok (Literal_collection ls)
  | T_Optional _, PNone => Ok literal_with_none
  | T_Optional t', _ => to_literal v t'
  | _, _ => Raise (TypeError "Failed to convert inputs")
  end.

Fixpoint translate (native : gmap string pyval) (types : list (string * pytype))
    : result (gmap string Literal) :=
  match types with
  | [] => Ok ∅
  | (k, t) :: types' =>
      rest <- translate native types' ;;
      match native !! k with
      | Some v => l <- to_literal v t ;; Ok (<[k := l]> rest)
      | None => Ok rest
      end
  end.

(** [isinstance(v, t)] as Python 3.10 and later answer it: a class is
    checked as such; [typing.Optional] of a class accepts the instances of the
    class and [None] ([Optional[Optional[t]]] is [Optional[t]]); every
    other subscripted generic, [typing.List[...]] or an Optional around one,
    raises. *)
Fixpoint instancecheck (v : pyval) (t : pytype) : result bool :=
  match t with
  | T_int => Ok (match v with PInt _ => true | _ => false end)
  | T_str => Ok (match v with PStr _ => true | _ => false end)
  | T_Optional T_int => Ok (match v with PInt _ | PNone => true | _ => false end)
  | T_Optional T_str => Ok (match v with PStr _ | PNone => true | _ => false end)
  | T_Optional (T_Optional _ as u) => instancecheck v u
  | T_Optional (T_List _) | T_List _ =>
      Raise (TypeError "Subscripted generics cannot be used with class and instance checks")
  end.

Definition r (x : Z) : Literal := Literal_scalar (Primitive_integer (2 * x)).

Definition call (calls_made : nat) (args : gmap string Promise) : outcome * nat :=
  (match val <$> args !! "x"%string with
   | Some (Literal_scalar (Primitive_integer x)) =>
       if x <? 0 then Failed (TaskFailure x) else Success (mkPromise "o0" (r x))
   | _ => Failed (TypeError "missing argument")
   end, S calls_made).

Definition runtime : Runtime nat := mkRuntime call translate instancecheck.

Definition lp (ins outs : list (string * pytype)) : Entity :=
  mkEntity LaunchPlan "lp" (mkInterface ins outs).

Definition int_to_int : Entity := lp [("x"%string, T_int)] [("o0"%string, T_int)].
Definition int_to_void : Entity := lp [("x"%string, T_int)] [].

Definition run (node : result ArrayNode) (kwargs : gmap string pyval)
    : result call_value * loop_state nat :=
  match node with
  | Ok self => local_execute runtime self kwargs 0%nat
  | Raise e => (Raise e, mkState [] 0 0%nat [])
  end.

Definition ints (zs : list Z) : pyval := PList (PInt <$> zs).

Definition ratio_node (t : Entity) (num den : Z) : result ArrayNode :=
  __init__ t None None (Some (PyFloat.literal num den)) None None None.

End Scenario.

(** ** Vocabulary of the properties *)

(** What a call leaves in its slot of the result sequence. *)
Definition slot (c : call_record) : Literal :=
  match call_outcome c with
  | Success output => val output
  | Failed _ => literal_with_none
  end.

Definition is_failed (c : call_record) : bool :=
  match call_outcome c with
  | Success _ => false
  | Failed _ => true
  end.

Definition state_of {World : Type} (f : flow World) : loop_state World :=
  match f with
  | Continue st => st
  | Raised _ st => st
  end.

(** The calls of a log were made one after the other, from world [w] on. *)
Fixpoint replay {World : Type} (rt : Runtime World) (w : World)
    (log : list call_record) : World :=
  match log with
  | [] => w
  | c :: log' => replay rt (snd (target_call rt w (call_literals c))) log'
  end.

(** Every record of a log holds what the target returned when called on
    the record's literals, in the world the earlier calls had left. *)
Fixpoint faithful {World : Type} (rt : Runtime World) (w : World)
    (log : list call_record) : Prop :=
  match log with
  | [] => True
  | c :: log' =>
      fst (target_call rt w (call_literals c)) = call_outcome c
      /\ faithful rt (snd (target_call rt w (call_literals c))) log'
  end.

(** A record holds the inputs that the loop builds for its index, and the
    literals that translating them gives. *)
Definition prepared {World : Type} (rt : Runtime World) (self : ArrayNode)
    (kwargs : gmap string pyval) (c : call_record) : Prop :=
  single_instance_inputs self kwargs (call_index c) = Ok (call_inputs c)
  /\ exists literal_map,
       translate_inputs_to_literals rt (call_inputs c) (target_inputs self) = Ok literal_map
       /\ call_literals c = kwargs_literals literal_map.

(** Building or translating the inputs of index [i] raises [e]. *)
Definition preparation_raises {World : Type} (rt : Runtime World) (self : ArrayNode)
    (kwargs : gmap string pyval) (i : nat) (e : exc) : Prop :=
  single_instance_inputs self kwargs i = Raise e
  \/ exists native,
       single_instance_inputs self kwargs i = Ok native
       /\ translate_inputs_to_literals rt native (target_inputs self) = Raise e.

(** How many calls of a log failed. *)
Definition failures (log : list call_record) : Z :=
  Z.of_nat (length (filter is_failed log)).

(** What the loop reads of the keyword arguments for input [k] at index
    [i]: the value itself when [k] is bound, its element [i] otherwise. *)
Definition input_at (self : ArrayNode) (kwargs : gmap string pyval)
    (k : string) (i : nat) : result pyval :=
  if decide (k ∈ _bound_inputs self) then kwargs_getitem kwargs k
  else (c <- kwargs_getitem kwargs k ;; subscript c i).

(** The state in which a call starts. *)
Definition initial_state {World : Type} (w : World) : loop_state World :=
  mkState [] 0 w [].

(** The threshold that the ratio alone gives. *)
Definition ratio_threshold (ratio : option PyFloat.float) (n : Z) : result Z :=
  match ratio with
  | Some r =>
      if PyFloat.truthy r then PyFloat.ceil (PyFloat.mul (PyFloat.of_int n) r)
      else Ok n
  | None => Ok n
  end.

(** A node as [__init__] leaves it, or a placeholder when it raised. *)
Definition built (r : result ArrayNode) : ArrayNode :=
  match r with
  | Ok self => self
  | Raise _ =>
      mkArrayNode (mkEntity Workflow "" (mkInterface [] [])) None None None None ""
                  ∅ (mkInterface [] []) None
  end.

(** The nodes and keyword arguments of the scenarios. *)
Module Runs.
Import Scenario.

Definition x_is (zs : list Z) : gmap string pyval := {[ "x"%string := ints zs ]}.

Definition tolerant : ArrayNode := built (ratio_node int_to_int 75 100).
Definition strict : ArrayNode :=
  built (__init__ int_to_int None None None None None None).
Definition void : ArrayNode :=
  built (__init__ int_to_void None None None None None None).

(** The first call of a run. *)
Definition first_call (self : ArrayNode) (kwargs : gmap string pyval) : call_record :=
  default (mkCall 0 ∅ ∅ (Failed (IndexError "no call")))
          (head (calls (snd (local_execute runtime self kwargs 0%nat)))).

End Runs.

(** ** The jupyter decorator

    [flytekitplugins/flyteinteractive/jupyter_lib/decorator.py]: the class
    [jupyter], its method [execute], and [exit_handler]. *)
Module Jupyter.

Inductive decorator : Type :=
  | JupyterDecorator
  | OtherDecorator (decorator_name : string).

(** A callable: a function, or a decorator around a callable, which it
    holds as [__wrapped__]. *)
Inductive callable : Type :=
  | Function (function_name : string)
  | Decorated (d : decorator) (__wrapped__ : callable).

(** What [execute] and [exit_handler] do outside themselves. *)
Inductive action : Type :=
  | CallTask (f : callable)
  | CallHook (f : callable)
  | ProcessStart (cmd : string)
  | ProcessJoin
  | WriteExampleNotebook (task_function : callable) (notebook_dir : option string).

(** The fields that [jupyter.__init__] sets. *)
Record jupyter : Type := mkJupyter {
  task_function : callable;
  max_idle_seconds : option Z;
  port : Z;
  enable : bool;
  run_task_first : bool;
  notebook_dir : option string;
  _pre_execute : option callable;
  _post_execute : option callable
}.

(** The loop of [exit_handler], lines 65-69: strip the decorators down to
    the function, stopping under the first [jupyter]. *)
Fixpoint unwrap (task_function : callable) : callable :=
  match task_function with
  | Function _ => task_function
  | Decorated JupyterDecorator wrapped => wrapped
  | Decorated (OtherDecorator _) wrapped => unwrap wrapped
  end.

(** [str(x)] in an f-string, for an optional string. *)
Definition str_of_dir (d : option string) : string := default "None"%string d.

(** The command line of the server, lines 152-160. *)
Definition server_command (self : jupyter) : string :=
  let cmd := ("jupyter notebook --port " +:+ pretty (port self)
              +:+ " --notebook-dir=" +:+ str_of_dir (notebook_dir self)
              +:+ " --NotebookApp.token=''")%string in
  match max_idle_seconds self with
  | Some m =>
      if negb (m =? 0)
      then (cmd +:+ " --NotebookApp.shutdown_no_activity_timeout=" +:+ pretty m)%string
      else cmd
  | None => cmd
  end.

Section Effects.

(** The world in which the actions happen, and what each action does to it:
    it returns or raises. *)
Context {World : Type} (effect : action -> World -> result pyval * World).

(** A computation: from the world and the actions done so far to a result,
    the new world and the longer list of actions. *)
Definition M (A : Type) : Type := World * list action -> result A * (World * list action).

Definition perform (a : action) : M pyval :=
  fun st =>
    let (r, w) := effect a (fst st) in
    (r, (w, snd st ++ [a])).

Definition seq_m {A B : Type} (m : M A) (k : A -> M B) : M B :=
  fun st =>
    match m st with
    | (Ok a, st') => k a st'
    | (Raise e, st') => (Raise e, st')
    end.

(** [exit_handler] *)
Definition exit_handler (task_function : callable) (post_execute : option callable)
    : M pyval :=
  seq_m (perform ProcessJoin) (fun _ =>
  seq_m (match post_execute with
         | Some hook => perform (CallHook hook)
         | None => fun st => (Ok PNone, st)
         end) (fun _ =>
  perform (CallTask (unwrap task_function)))).

(** Lines 141-177 of [execute]: the server is launched and waited for. *)
Definition launch (self : jupyter) : M pyval :=
  seq_m (match _pre_execute self with
         | Some hook => perform (CallHook hook)
         | None => fun st => (Ok PNone, st)
         end) (fun _ =>
  seq_m (perform (ProcessStart (server_command self))) (fun _ =>
  seq_m (perform (WriteExampleNotebook (task_function self) (notebook_dir self))) (fun _ =>
  exit_handler (task_function self) (_post_execute self)))).

(** [jupyter.execute]; [is_local_execution] is what the execution state of
    the current context answers. *)
Definition execute (self : jupyter) (is_local_execution : bool) : M pyval :=
  fun st =>
    if negb (enable self) || is_local_execution
    then perform (CallTask (task_function self)) st
    else if run_task_first self
    then match perform (CallTask (task_function self)) st with
         | (Ok v, st') => (Ok v, st')
         | (Raise _, st') => launch self st'
         end
    else launch self st.

End Effects.

(** A callable under a stack of decorators, outermost first. *)
Definition decorate (stack : list decorator) (f : callable) : callable :=
  foldr Decorated f stack.

Definition hook_call (hook : option callable) : list action :=
  match hook with
  | Some h => [CallHook h]
  | None => []
  end.

(** The actions of an execution that launches the server and in which
    nothing raises but, with [run_task_first], the first attempt. *)
Definition plan (self : jupyter) : list action :=
  (if run_task_first self then [CallTask (task_function self)] else [])
  ++ hook_call (_pre_execute self)
  ++ [ProcessStart (server_command self);
      WriteExampleNotebook (task_function self) (notebook_dir self);
      ProcessJoin]
  ++ hook_call (_post_execute self)
  ++ [CallTask (unwrap (task_function self))].

End Jupyter.

(** Further nodes and keyword arguments to run. *)
Module MoreRuns.
Import Scenario.

(** A launch plan with two inputs; the target reads [x] only. *)
Definition two_inputs : Entity :=
  lp [("x"%string, T_int); ("y"%string, T_int)] [("o0"%string, T_int)].

Definition both_mapped : ArrayNode :=
  built (__init__ two_inputs None None None None None None).

Definition y_bound : ArrayNode :=
  built (__init__ two_inputs None None None (Some {[ "y"%string ]}) None None).

(** [min_successes=-1] *)
Definition lenient : ArrayNode :=
  built (__init__ int_to_int None (Some (-1)) None None None None).

Definition xy (xs ys : list Z) : gmap string pyval :=
  <["y"%string := ints ys]> (Runs.x_is xs).

End MoreRuns.

(** A task and an environment to run the decorator in: the world counts
    the actions, and the task raises when it is the first action. *)
Module JupyterRuns.
Import Jupyter.

Definition flaky (a : action) (w : nat) : result pyval * nat :=
  (match a with
   | CallTask _ => if (w =? 0)%nat then Raise (TaskFailure 1) else Ok (PInt 42)
   | _ => Ok PNone
   end, S w).

Definition train : callable := Decorated (OtherDecorator "traced") (Function "train").

Definition remote : jupyter :=
  mkJupyter train (Some 3600) 8888 true true (Some "/root"%string) None
            (Some (Function "cleanup")).

Definition disabled : jupyter :=
  mkJupyter train (Some 3600) 8888 false false (Some "/root"%string) None None.

End JupyterRuns.

(** * Properties *)

(** ** Doubles *)

Module PyFloatFacts.
Import PyFloat.

Lemma digits2_pos_size p : digits2_pos p = Pos.size p.
Proof. induction p; simpl; congruence. Qed.

Lemma digits2_pos_shift p k :
  Zpos (digits2_pos (Pos.iter xO p k)) = Zpos (digits2_pos p) + Zpos k.
Proof.
  revert p. induction k using Pos.peano_ind; intros p.
  - simpl. lia.
  - rewrite Pos.iter_succ. simpl. rewrite Pos2Z.inj_succ, IHk. lia.
Qed.

Lemma Zpos_shift p k : Zpos (Pos.iter xO p k) = Zpos p * 2 ^ Zpos k.
Proof.
  revert p. induction k using Pos.peano_ind; intros p.
  - simpl. lia.
  - rewrite Pos.iter_succ, Pos2Z.inj_xO, IHk, Pos2Z.inj_succ, Z.pow_succ_r by lia. lia.
Qed.

Lemma digits2_below_53 p : Zpos p < 2 ^ 53 -> Zpos (digits2_pos p) <= 53.
Proof.
  intros H. rewrite digits2_pos_size.
  destruct (Z_le_gt_dec (Zpos (Pos.size p)) 53) as [|Hgt]; [done|].
  exfalso.
  pose proof (Pos.size_le p) as Hle.
  assert (2 ^ 54 <= 2 ^ Zpos (Pos.size p)) by (apply Z.pow_le_mono_r; lia).
  assert (Zpos (2 ^ Pos.size p) = 2 ^ Zpos (Pos.size p))
    by (rewrite Pos2Z.inj_pow; reflexivity).
  assert (Zpos (2 ^ Pos.size p) <= Zpos p~0) by (apply Pos2Z.pos_le_pos; exact Hle).
  lia.
Qed.

Lemma fexp_normal e : -1021 <= e -> fexp prec emax e = e - 53.
Proof. intros H. unfold fexp, emin, prec, emax. lia. Qed.

(** A 53-bit mantissa with an exponent in range needs no rounding. *)
Lemma round_canonical s m e :
  Zpos (digits2_pos m) = 53 -> -1074 <= e <= 971 ->
  binary_round_aux prec emax s (Zpos m) e loc_Exact = S754_finite s m e.
Proof.
  intros Hd He. unfold binary_round_aux, shr_fexp. simpl Zdigits2.
  rewrite Hd.
  assert (Hf : fexp prec emax (53 + e) - e = 0)
    by (unfold fexp, emin, prec, emax; lia).
  rewrite Hf. simpl. rewrite Hd, Hf. simpl.
  destruct (Z.leb_spec e (emax - prec)); [done|]. unfold emax, prec in *; lia.
Qed.

(** An int below 2^53 converts exactly. *)
Lemma of_int_exact p :
  Zpos p < 2 ^ 53 ->
  exists m e, of_int (Zpos p) = S754_finite false m e
    /\ Zpos (digits2_pos m) = 53 /\ -52 <= e <= 0
    /\ Zpos m = Zpos p * 2 ^ (- e).
Proof.
  intros Hp. pose proof (digits2_below_53 p Hp) as Hd.
  unfold of_int, binary_normalize, binary_round.
  rewrite Z.add_0_r, fexp_normal by lia.
  unfold shl_align. rewrite Z.sub_0_r.
  destruct (Zpos (digits2_pos p) - 53) as [|q|q] eqn:Hk; [| lia |].
  - exists p, 0. rewrite round_canonical by lia.
    repeat split; try lia.
  - exists (Pos.iter xO p q), (Zneg q).
    assert (Hq : Zpos (digits2_pos (Pos.iter xO p q)) = 53)
      by (rewrite digits2_pos_shift; lia).
    rewrite round_canonical by lia.
    split; [reflexivity|]. split; [exact Hq|]. split; [lia|].
    rewrite Zpos_shift. reflexivity.
Qed.

Lemma of_int_1 : of_int 1 = one.
Proof. reflexivity. Qed.

Lemma mul_two_52 m : (m * 4503599627370496)%positive = Pos.iter xO m 52.
Proof. rewrite Pos.mul_comm. reflexivity. Qed.

Lemma shr_52 m :
  SpecFloat.iter_pos shr_1 52%positive
    {| shr_m := Zpos (Pos.iter xO m 52); shr_r := false; shr_s := false |}
  = {| shr_m := Zpos m; shr_r := false; shr_s := false |}.
Proof. reflexivity. Qed.

Lemma mul_one_r s m e :
  Zpos (digits2_pos m) = 53 -> -1022 <= e <= 971 ->
  mul (S754_finite s m e) one = S754_finite s m e.
Proof.
  intros Hd He. unfold mul, one, SFmul.
  rewrite mul_two_52.
  unfold binary_round_aux, shr_fexp.
  cbn [Zdigits2]. rewrite digits2_pos_shift, Hd.
  replace (fexp prec emax _ - (e + -52)) with 52
    by (unfold fexp, emin, prec, emax; lia).
  cbn [shr shr_record_of_loc]. rewrite shr_52.
  cbn [loc_of_shr_record shr_m round_nearest_even Zdigits2 shr_record_of_loc].
  rewrite Hd.
  replace (fexp prec emax _ - (e + -52 + 52)) with 0
    by (unfold fexp, emin, prec, emax; lia).
  cbn [shr shr_m]. rewrite xorb_false_r.
  replace (e + -52 + 52) with e by lia.
  destruct (Z.leb_spec e (emax - prec)); [done|]. unfold emax, prec in *; lia.
Qed.

(** [math.ceil(n * 1.0) = n] for a length that a double holds exactly. *)
Lemma ceil_mul_one n : 0 <= n < 2 ^ 53 -> ceil (mul (of_int n) one) = Ok n.
Proof.
  intros [H0 Hn]. destruct n as [|p|p]; [reflexivity| |lia].
  destruct (of_int_exact p Hn) as (m & e & -> & Hd & He & Hm).
  rewrite mul_one_r by lia. unfold ceil. f_equal.
  destruct e as [|q|q]; [| lia |].
  - simpl in Hm. lia.
  - rewrite Hm. simpl Z.opp.
    rewrite <- Z.mul_opp_l, Z.div_mul by (apply Z.pow_nonzero; lia). lia.
Qed.

(** The only double equal to the int 1. *)
Lemma eqb_int_1 f : eqb_int f 1 = true -> f = one.
Proof.
  unfold eqb_int. rewrite of_int_1. unfold SFeqb, one.
  destruct f as [s|s| |s m e]; cbn [SFcompare].
  - destruct s; discriminate.
  - destruct s; discriminate.
  - discriminate.
  - destruct s; [discriminate|].
    destruct (Z.compare_spec e (-52)) as [->| |]; try discriminate.
    destruct (Pos.compare_cont Eq m 4503599627370496) eqn:Hc; try discriminate.
    apply (Pos.compare_eq m) in Hc. subst m. reflexivity.
Qed.

(** [math.ceil] of a finite double is the least integer not below it. *)
Lemma ceil_finite s m e z :
  ceil (S754_finite s m e) = Ok z ->
  let v := if s then - Zpos m else Zpos m in
  if e <? 0 then (z - 1) * 2 ^ (- e) < v <= z * 2 ^ (- e)
  else z = v * 2 ^ e.
Proof.
  unfold ceil. intros [= <-]. destruct e as [|q|q].
  - reflexivity.
  - reflexivity.
  - change (Zneg q <? 0) with true. change (- Zneg q) with (Zpos q). cbv iota zeta.
    assert (0 < 2 ^ Zpos q) by (apply Z.pow_pos_nonneg; lia).
    destruct s.
    + pose proof (Z.div_mod (Zpos m) (2 ^ Zpos q) ltac:(lia)) as Hdm.
      pose proof (Z.mod_pos_bound (Zpos m) (2 ^ Zpos q) ltac:(lia)). lia.
    + pose proof (Z.div_mod (- Zpos m) (2 ^ Zpos q) ltac:(lia)) as Hdm.
      pose proof (Z.mod_pos_bound (- Zpos m) (2 ^ Zpos q) ltac:(lia)). lia.
Qed.

(** With no sub-invocation at all, a finite ratio asks for none. *)
Lemma ceil_mul_zero r : is_finite r = true -> ceil (mul (of_int 0) r) = Ok 0.
Proof. destruct r; simpl; intros; done. Qed.

(** A ratio that is infinite or NaN gives NaN, which has no ceiling. *)
Lemma ceil_mul_zero_not_finite r :
  is_finite r = false ->
  ceil (mul (of_int 0) r) = Raise (ValueError "cannot convert float NaN to integer").
Proof. destruct r; simpl; intros; done. Qed.

End PyFloatFacts.

(** ** The threshold *)

Lemma min_successes_unfold self n :
  min_successes self n =
    if int_truthy (_min_successes self) then Ok (default 0 (_min_successes self))
    else ratio_threshold (_min_success_ratio self) n.
Proof.
  unfold min_successes, int_truthy, ratio_threshold.
  destruct (_min_successes self) as [m|]; [|reflexivity].
  destruct (negb (m =? 0)); reflexivity.
Qed.

(** C2, as the code has it: the effective minimum-success threshold is the
    explicit [min_successes] when one is given and is not 0; otherwise
    (unset, or 0) it is [ceil(N * min_success_ratio)], in double precision,
    when a non-zero ratio is given; otherwise it is [N].  A non-zero
    [min_successes] wins over any ratio.  Ratio 0.5 with N = 10 gives 5,
    ratio 0.8 with N = 7 gives 6, and nothing configured with N = 9 gives 9. *)
Theorem effective_min_successes (self : ArrayNode) :
  (forall n m, _min_successes self = Some m -> m <> 0 -> min_successes self n = Ok m)
  /\ (forall n r,
        int_truthy (_min_successes self) = false ->
        _min_success_ratio self = Some r -> PyFloat.truthy r = true ->
        min_successes self n = PyFloat.ceil (PyFloat.mul (PyFloat.of_int n) r))
  /\ (forall n,
        int_truthy (_min_successes self) = false ->
        ratio_truthy (_min_success_ratio self) = false ->
        min_successes self n = Ok n)
  /\ (int_truthy (_min_successes self) = false ->
      _min_success_ratio self = Some (PyFloat.literal 5 10) ->
      min_successes self 10 = Ok 5)
  /\ (int_truthy (_min_successes self) = false ->
      _min_success_ratio self = Some (PyFloat.literal 8 10) ->
      min_successes self 7 = Ok 6)
  /\ (_min_successes self = None -> _min_success_ratio self = None ->
      min_successes self 9 = Ok 9).
Proof.
  repeat split.
  - intros n m Hm Hne. rewrite min_successes_unfold, Hm. simpl.
    destruct (Z.eqb_spec m 0); [contradiction|reflexivity].
  - intros n r Hms Hr Ht. rewrite min_successes_unfold, Hms, Hr. simpl.
    rewrite Ht. reflexivity.
  - intros n Hms Hr. rewrite min_successes_unfold, Hms.
    unfold ratio_threshold, ratio_truthy in *.
    destruct (_min_success_ratio self) as [r|]; [|reflexivity].
    rewrite Hr. reflexivity.
  - intros Hms Hr. rewrite min_successes_unfold, Hms, Hr. vm_compute. reflexivity.
  - intros Hms Hr. rewrite min_successes_unfold, Hms, Hr. vm_compute. reflexivity.
  - intros Hms Hr. rewrite min_successes_unfold, Hms, Hr. reflexivity.
Qed.

(** Both configured: the explicit count wins over the ratio. *)
Lemma effective_min_successes_witness :
  min_successes
    (built (__init__ Scenario.int_to_int None (Some 2) (Some (PyFloat.literal 5 10))
              None None None)) 10 = Ok 2.
Proof.
  apply (proj1 (effective_min_successes _) 10 2); [reflexivity | lia].
Defined.

(** C2, as the specification words it, fails for an explicit count of 0:
    with [min_successes=0], no ratio and N = 3 the threshold is 3, not the
    explicit value 0. *)
Lemma explicit_zero_is_not_the_threshold :
  let self := built (__init__ Scenario.int_to_int None (Some 0) None None None None) in
  _min_successes self = Some 0
  /\ min_successes self 3 = Ok 3
  /\ min_successes self 3 <> Ok 0.
Proof. repeat split. discriminate. Qed.

Section Properties.

Context {World : Type} (rt : Runtime World).

(** What [local_execute] reads of the node. *)
Lemma local_execute_reads (s1 s2 : ArrayNode) kwargs w :
  target s1 = target s2 ->
  _bound_inputs s1 = _bound_inputs s2 ->
  _collection_interface s1 = _collection_interface s2 ->
  (forall n, min_successes s1 n = min_successes s2 n) ->
  local_execute rt s1 kwargs w = local_execute rt s2 kwargs w.
Proof.
  intros Ht Hb Hc Hm.
  assert (Hcount : forall ks, count_mapped rt s1 kwargs ks = count_mapped rt s2 kwargs ks).
  { induction ks as [|k ks IH]; [reflexivity|]. simpl.
    unfold target_inputs. rewrite Hb, IH, Ht. reflexivity. }
  assert (Hfill : forall ks i acc,
             fill_inputs s1 kwargs ks i acc = fill_inputs s2 kwargs ks i acc).
  { induction ks as [|k ks IH]; intros i acc; [reflexivity|]. simpl.
    rewrite Hb. destruct (decide _); simpl.
    - destruct (kwargs_getitem kwargs k); simpl; [apply IH|reflexivity].
    - destruct (kwargs_getitem kwargs k) as [c|]; simpl; [|reflexivity].
      destruct (subscript c i); simpl; [apply IH|reflexivity]. }
  assert (Hout : outputs_expected s1 = outputs_expected s2).
  { unfold outputs_expected, node_python_interface. rewrite Hc. reflexivity. }
  assert (Hbody : forall n min i st,
             loop_body rt s1 kwargs n min i st = loop_body rt s2 kwargs n min i st).
  { intros. unfold loop_body, single_instance_inputs, node_python_interface, target_inputs.
    rewrite Hfill, Hc, Ht, Hout. reflexivity. }
  assert (Hloop : forall n min idx st,
             for_range rt s1 kwargs n min idx st = for_range rt s2 kwargs n min idx st).
  { induction idx as [|i idx IH]; intros st; [reflexivity|]. simpl.
    rewrite Hbody. destruct (loop_body rt s2 kwargs n min i st); [apply IH|reflexivity]. }
  unfold local_execute, mapped_entity_count, node_python_interface, node_name.
  rewrite Hcount, Hc. destruct (count_mapped rt s2 kwargs _) as [n|]; [|reflexivity].
  rewrite Hm. destruct (min_successes s2 n) as [min|]; [|reflexivity].
  rewrite Hloop, Hout, Ht. reflexivity.
Qed.

End Properties.

(** ** Construction *)

(** The node that a successful construction builds. *)
Lemma init_builds t c ms r b v md self :
  __init__ t c ms r b v md = Ok self ->
  self = mkArrayNode t c ms r (Some 1) (name t) (default ∅ b)
           (transform_interface_to_list_interface (python_interface t) (default ∅ b)
              (output_as_list_of_optionals r (length (outputs (python_interface t)))))
           md
  /\ (length (outputs (python_interface t)) <= 1)%nat
  /\ kind t = LaunchPlan
  /\ (md = None \/ exists nm, md = Some (NodeMetadata nm)).
Proof.
  unfold __init__. case_bool_decide as Hn; [discriminate|].
  destruct (kind t); try discriminate.
  destruct (Z.eqb_spec (default 1 v) 1) as [Hv|Hv]; simpl; [|discriminate].
  rewrite Hv.
  destruct md as [[nm|x]|]; simpl; intros [= <-];
    (split; [reflexivity | split; [lia | split; [reflexivity | eauto]]]).
Qed.

(** C7: construction raises, and nothing has run by then since [__init__]
    never calls the target, exactly when the target declares more than one
    output, or is not a launch plan, or an execution version other than 1 is
    given, or the metadata is a [TaskMetadata]; a node that is built has
    execution version 1, also when none was given. *)
Theorem construction_rejects t c ms r b v md :
  ((1 < length (outputs (python_interface t)))%nat
   \/ kind t <> LaunchPlan
   \/ (exists x, v = Some x /\ x <> 1)
   \/ (exists x, md = Some (TaskMetadata x))
   <-> exists e, __init__ t c ms r b v md = Raise e)
  /\ (forall self, __init__ t c ms r b v md = Ok self ->
        _execution_version self = Some 1
        /\ (metadata self = None \/ exists nm, metadata self = Some (NodeMetadata nm))).
Proof.
  split.
  - unfold __init__. case_bool_decide as Hn.
    { split; [eauto|]. intros _. left. exact Hn. }
    destruct (kind t) eqn:Hk.
    2,3: split; [eauto|]; intros _; right; left; discriminate.
    destruct (Z.eqb_spec (default 1 v) 1) as [Hv|Hv]; simpl.
    + destruct md as [[nm|x]|]; simpl.
      * split; [|intros [e He]; discriminate].
        intros [H|[H|[(x & -> & Hx)|(x & Hx)]]]; [lia|congruence|simpl in Hv; lia|discriminate].
      * split; [eauto|]. intros _. right. right. right. eauto.
      * split; [|intros [e He]; discriminate].
        intros [H|[H|[(x & -> & Hx)|(x & Hx)]]]; [lia|congruence|simpl in Hv; lia|discriminate].
    + split; [eauto|]. intros _. right. right. left.
      destruct v as [x|]; simpl in Hv; [eauto|lia].
  - intros self Hself. apply init_builds in Hself as (-> & _ & _ & Hmd). simpl.
    split; [reflexivity | exact Hmd].
Qed.

(** A target with two outputs is refused. *)
Lemma construction_rejects_witness :
  exists e, __init__ (Scenario.lp [] [("a"%string, T_int); ("b"%string, T_int)])
              None None None None None None = Raise e.
Proof.
  apply (proj1 (proj1 (construction_rejects _ None None None None None None))).
  left. simpl. lia.
Defined.

(** C10: an explicit [min_successes] of 0 behaves as if none were given.
    Construction succeeds or raises alike; the threshold of the node built
    falls back to the ratio, and to N without one; and every call returns
    the same and leaves the same state. *)
Theorem min_successes_zero_as_unset
    {World : Type} (rt : Runtime World) t c r b v md :
  match __init__ t c (Some 0) r b v md, __init__ t c None r b v md with
  | Ok zero, Ok unset =>
      (forall n, min_successes zero n = ratio_threshold r n)
      /\ (forall n, min_successes zero n = min_successes unset n)
      /\ (forall kwargs w, local_execute rt zero kwargs w = local_execute rt unset kwargs w)
  | Raise e, Raise e' => e = e'
  | _, _ => False
  end.
Proof.
  destruct (__init__ t c (Some 0) r b v md) as [zero|e] eqn:H0;
    destruct (__init__ t c None r b v md) as [unset|e'] eqn:H1.
  - apply init_builds in H0 as (-> & _), H1 as (-> & _).
    assert (Hthr : forall n, min_successes (mkArrayNode t c (Some 0) r (Some 1) (name t)
               (default ∅ b) (transform_interface_to_list_interface (python_interface t)
                 (default ∅ b) (output_as_list_of_optionals r
                   (length (outputs (python_interface t))))) md) n = ratio_threshold r n)
      by reflexivity.
    split; [exact Hthr|]. split; [intros n; rewrite Hthr; reflexivity|].
    intros kwargs w. apply local_execute_reads; try reflexivity.
  - exfalso. revert H0 H1. unfold __init__. case_bool_decide; [discriminate|].
    destruct (kind t); try discriminate.
    destruct (negb _); [discriminate|]. destruct md as [[?|?]|]; discriminate.
  - exfalso. revert H0 H1. unfold __init__. case_bool_decide; [discriminate|].
    destruct (kind t); try discriminate.
    destruct (negb _); [discriminate|]. destruct md as [[?|?]|]; discriminate.
  - revert H0 H1. unfold __init__. case_bool_decide; [congruence|].
    destruct (kind t); try congruence.
    destruct (negb _); [congruence|]. destruct md as [[?|?]|]; simpl; congruence.
Qed.

(** ** The loop *)

Ltac close_round :=
  first [ reflexivity
        | assumption
        | rewrite app_nil_r; reflexivity
        | intros; simpl in *; first [lia | discriminate | done] ].

Section Loop.

Context {World : Type} (rt : Runtime World).
Variable self : ArrayNode.
Variable kwargs : gmap string pyval.

(** One round either fails while preparing the inputs, leaving the state
    as it was, or calls the target once and accounts for its outcome. *)
Lemma loop_body_spec n min i st :
  let fl := loop_body rt self kwargs n min i st in
  (exists e, fl = Raised e st /\ preparation_raises rt self kwargs i e)
  \/ (exists c,
        call_index c = i
        /\ prepared rt self kwargs c
        /\ target_call rt (world st) (call_literals c) = (call_outcome c, world (state_of fl))
        /\ calls (state_of fl) = calls st ++ [c]
        /\ literals (state_of fl)
           = literals st ++ (if outputs_expected self then [slot c] else [])
        /\ failed_count (state_of fl)
           = failed_count st + (if outputs_expected self && is_failed c then 1 else 0)
        /\ match fl with
           | Continue _ =>
               outputs_expected self = true -> is_failed c = true ->
               min <= n - failed_count (state_of fl)
           | Raised e _ =>
               outputs_expected self = true /\ call_outcome c = Failed e
               /\ n - failed_count (state_of fl) < min
           end).
Proof.
  unfold loop_body.
  destruct (single_instance_inputs self kwargs i) as [native|e] eqn:Hin;
    [|left; exists e; split; [reflexivity | left; exact Hin]].
  destruct (translate_inputs_to_literals rt native (target_inputs self))
    as [lm|e] eqn:Htr;
    [|left; exists e; split; [reflexivity | right; eauto]].
  destruct (target_call rt (world st) (kwargs_literals lm)) as [out w] eqn:Hcall.
  right. exists (mkCall i native (kwargs_literals lm) out).
  assert (Hprep : prepared rt self kwargs (mkCall i native (kwargs_literals lm) out))
    by (split; [exact Hin | exists lm; split; [exact Htr | reflexivity]]).
  destruct out as [output|e]; cbn [call_index call_literals call_outcome].
  - destruct (outputs_expected self); simpl;
      (split; [reflexivity | split; [exact Hprep|]]); repeat split; close_round.
  - destruct (outputs_expected self) eqn:Hoe; simpl.
    + destruct (Z.ltb_spec (n - (failed_count st + 1)) min); simpl;
        (split; [reflexivity | split; [exact Hprep|]]); repeat split; close_round.
    + (split; [reflexivity | split; [exact Hprep|]]); repeat split; close_round.
Qed.

Lemma failures_cons c log :
  failures (c :: log) = (if is_failed c then 1 else 0) + failures log.
Proof.
  unfold failures. destruct (is_failed c) eqn:Hc.
  - rewrite filter_cons_True by (rewrite Hc; exact I). simpl length. lia.
  - rewrite filter_cons_False by (rewrite Hc; simpl; tauto). lia.
Qed.

Lemma failures_nonneg log : 0 <= failures log.
Proof. unfold failures. lia. Qed.

(** What a run of the loop leaves behind. *)
Lemma for_range_spec n min idx st :
  let fl := for_range rt self kwargs n min idx st in
  exists log,
    calls (state_of fl) = calls st ++ log
    /\ Forall (prepared rt self kwargs) log
    /\ faithful rt (world st) log
    /\ world (state_of fl) = replay rt (world st) log
    /\ literals (state_of fl)
       = literals st ++ (if outputs_expected self then slot <$> log else [])
    /\ failed_count (state_of fl)
       = failed_count st + (if outputs_expected self then failures log else 0)
    /\ match fl with
       | Continue _ =>
           call_index <$> log = idx
           /\ (failed_count st < failed_count (state_of fl) ->
               min <= n - failed_count (state_of fl))
       | Raised e _ =>
           exists done i rest,
             idx = done ++ i :: rest
             /\ ((call_index <$> log = done /\ preparation_raises rt self kwargs i e)
                 \/ (call_index <$> log = done ++ [i]
                     /\ outputs_expected self = true
                     /\ (exists c, last log = Some c /\ call_outcome c = Failed e)
                     /\ n - failed_count (state_of fl) < min))
       end.
Proof.
  revert st. induction idx as [|i rest IH]; intros st; simpl.
  { exists []. simpl. rewrite app_nil_r.
    split; [reflexivity|]. split; [constructor|]. split; [exact I|]. split; [reflexivity|].
    split; [destruct (outputs_expected self); simpl; by rewrite app_nil_r|].
    split; [destruct (outputs_expected self); unfold failures; simpl; lia|].
    split; [reflexivity | lia]. }
  destruct (loop_body_spec n min i st) as [(e & Hfl & Hprep)|(c & Hi & Hc & Hcall & Hlog & Hlit & Hfc & Hend)].
  - rewrite Hfl. simpl. exists []. rewrite !app_nil_r. simpl.
    split; [reflexivity|]. split; [constructor|]. split; [exact I|]. split; [reflexivity|].
    split; [destruct (outputs_expected self); by rewrite ?app_nil_r|].
    split; [destruct (outputs_expected self); unfold failures; simpl; lia|].
    exists [], i, rest. split; [reflexivity|]. left. split; [reflexivity | exact Hprep].
  - destruct (loop_body rt self kwargs n min i st) as [st1|e st1] eqn:Hbody; simpl in *.
    + specialize (IH st1). simpl in IH.
      destruct IH as (log & Hlog' & Hprep' & Hfaith & Hworld & Hlit' & Hfc' & Hend').
      exists (c :: log).
      split; [rewrite Hlog', Hlog, <- app_assoc; reflexivity|].
      split; [constructor; assumption|].
      split; [simpl; rewrite Hcall; split; [reflexivity | exact Hfaith]|].
      split; [simpl; rewrite Hcall; exact Hworld|].
      split; [rewrite Hlit', Hlit; destruct (outputs_expected self);
              rewrite <- ?app_assoc, ?app_nil_r; reflexivity|].
      split; [rewrite Hfc', Hfc, failures_cons;
              destruct (outputs_expected self), (is_failed c); simpl; lia|].
      pose proof (failures_nonneg log) as Hnn.
      destruct (for_range rt self kwargs n min rest st1) as [st2|e st2]; simpl in *.
      * destruct Hend' as [Hidx Hbudget]. split; [simpl; f_equal; [exact Hi | exact Hidx]|].
        intros Hlt. destruct (Z.eq_dec (failed_count st2) (failed_count st1)) as [Heq|Hne].
        -- rewrite Heq. apply Hend.
           ++ destruct (outputs_expected self); [reflexivity|simpl in Hfc; lia].
           ++ destruct (is_failed c); [reflexivity|].
              rewrite andb_false_r in Hfc. lia.
        -- apply Hbudget. destruct (outputs_expected self); lia.
      * destruct Hend' as (done & j & rest' & -> & Hcase).
        exists (i :: done), j, rest'. split; [reflexivity|].
        destruct Hcase as [[Hidx Hp]|(Hidx & Hoe & (c' & Hlast & Hc') & Hlt)].
        -- left. split; [simpl; f_equal; [exact Hi | exact Hidx] | exact Hp].
        -- right. split; [simpl; f_equal; [exact Hi | exact Hidx]|]. split; [exact Hoe|].
           split; [|exact Hlt]. exists c'. split; [|exact Hc'].
           destruct log; [discriminate|]. exact Hlast.
    + destruct Hend as (Hoe & Hc' & Hlt). exists [c]. simpl.
      split; [exact Hlog|]. split; [constructor; [exact Hc | constructor]|].
      split; [rewrite Hcall; split; [reflexivity | exact I]|].
      split; [rewrite Hcall; reflexivity|].
      split; [rewrite Hlit, Hoe; reflexivity|].
      split; [rewrite Hfc, Hoe; unfold failures, is_failed; rewrite Hc'; simpl;
              rewrite filter_cons_True by (unfold is_failed; rewrite Hc'; exact I);
              reflexivity|].
      exists [], i, rest. split; [reflexivity|]. right.
      split; [rewrite Hi; reflexivity|]. split; [exact Hoe|]. split; [eauto|exact Hlt].
Qed.

(** A failed call after which too few successes remain is the last call of
    the run, and the run raises its error. *)
Lemma for_range_budget n min idx st log k c :
  outputs_expected self = true ->
  let fl := for_range rt self kwargs n min idx st in
  calls (state_of fl) = calls st ++ log ->
  log !! k = Some c -> is_failed c = true ->
  n - (failed_count st + failures (take (S k) log)) < min ->
  S k = length log
  /\ exists e, call_outcome c = Failed e /\ fl = Raised e (state_of fl).
Proof.
  intros Hoe. revert st log k. induction idx as [|i rest IH]; intros st log k; simpl.
  { intros Hlog Hk. apply (f_equal length) in Hlog. rewrite length_app in Hlog.
    destruct log; [discriminate | simpl in Hlog; lia]. }
  destruct (loop_body_spec n min i st)
    as [(e & Hfl & _)|(c0 & _ & _ & _ & Hlog0 & _ & Hfc & Hend)].
  { rewrite Hfl. simpl. intros Hlog Hk. apply (f_equal length) in Hlog.
    rewrite length_app in Hlog. destruct log; [discriminate | simpl in Hlog; lia]. }
  rewrite Hoe in Hfc. simpl in Hfc.
  destruct (loop_body rt self kwargs n min i st) as [st1|e st1]; simpl in *.
  - pose proof (for_range_spec n min rest st1) as (log1 & Hlog1 & _). simpl in Hlog1.
    intros Hlog Hk Hfail Hlt.
    rewrite Hlog1, Hlog0, <- app_assoc in Hlog. apply app_inv_head in Hlog. subst log.
    change ([c0] ++ log1) with (c0 :: log1) in *.
    change (take (S k) (c0 :: log1)) with (c0 :: take k log1) in Hlt.
    rewrite failures_cons in Hlt.
    destruct k as [|k]; simpl in Hk.
    + injection Hk as ->. rewrite Hfail in Hfc, Hlt.
      specialize (Hend Hoe Hfail). rewrite take_0 in Hlt. unfold failures in Hlt.
      simpl in Hlt. lia.
    + destruct (IH st1 log1 k Hlog1 Hk Hfail) as [Hlen Hraise].
      { rewrite Hfc. destruct (is_failed c0); simpl in *; lia. }
      split; [simpl; lia | exact Hraise].
  - destruct Hend as (_ & Hc0 & _). intros Hlog Hk Hfail _.
    rewrite Hlog0 in Hlog. apply app_inv_head in Hlog. subst log.
    destruct k as [|k]; simpl in Hk; [|rewrite lookup_nil in Hk; discriminate].
    injection Hk as <-. split; [reflexivity|]. exists e. split; [exact Hc0 | reflexivity].
Qed.

End Loop.

(** ** A whole call *)

Section WholeCall.

Context {World : Type} (rt : Runtime World).
Variable self : ArrayNode.
Variable kwargs : gmap string pyval.

Lemma count_mapped_nonneg ks n : count_mapped rt self kwargs ks = Ok n -> 0 <= n.
Proof.
  induction ks as [|k ks IH]; simpl; [intros [= <-]; lia|].
  destruct (decide _); [exact IH|].
  destruct (kwargs_getitem kwargs k) as [v|]; simpl; [|discriminate].
  destruct v as [| | |[|x items]]; simpl;
    try (destruct (getitem _ k); simpl; discriminate).
  destruct (getitem _ k) as [t|]; simpl; [|discriminate].
  destruct (isinstance rt x t) as [[]|]; simpl; try discriminate.
  intros [= <-]. lia.
Qed.

(** A call that returns went through the whole range. *)
Lemma local_execute_returns w v st :
  local_execute rt self kwargs w = (Ok v, st) ->
  exists n min,
    mapped_entity_count rt self kwargs = Ok n /\ 0 <= n
    /\ min_successes self n = Ok min
    /\ for_range rt self kwargs n min (range n) (mkState [] 0 w []) = Continue st
    /\ v = (if outputs_expected self
            then APromise (mkPromise "o0" (Literal_collection (literals st)))
            else VoidPromise (node_name self)).
Proof.
  unfold local_execute.
  destruct (mapped_entity_count rt self kwargs) as [n|] eqn:Hn; [|discriminate].
  destruct (min_successes self n) as [min|] eqn:Hmin; [|discriminate].
  destruct (for_range rt self kwargs n min (range n) _) as [st'|e st'] eqn:Hrun;
    [|discriminate].
  intros [= <- <-]. exists n, min.
  split; [reflexivity|]. split; [eapply count_mapped_nonneg; exact Hn|].
  repeat split; assumption.
Qed.

(** Every call that the loop made is in the log of the final state, in
    the order of the range, whatever the call returns or raises. *)
Lemma local_execute_log w :
  let '(res, st) := local_execute rt self kwargs w in
  Forall (prepared rt self kwargs) (calls st)
  /\ faithful rt w (calls st)
  /\ world st = replay rt w (calls st)
  /\ literals st = (if outputs_expected self then slot <$> calls st else [])
  /\ failed_count st = (if outputs_expected self then failures (calls st) else 0).
Proof.
  unfold local_execute.
  destruct (mapped_entity_count rt self kwargs) as [n|];
    [|simpl; repeat split; try constructor; destruct (outputs_expected self); reflexivity].
  destruct (min_successes self n) as [min|];
    [|simpl; repeat split; try constructor; destruct (outputs_expected self); reflexivity].
  pose proof (for_range_spec rt self kwargs n min (range n) (mkState [] 0 w []))
    as (log & Hlog & Hprep & Hfaith & Hworld & Hlit & Hfc & _).
  simpl in *.
  destruct (for_range rt self kwargs n min (range n) _) as [st|e st]; simpl in *;
    subst log; repeat split; assumption.
Qed.

(** What [fill_inputs] puts under each key it walks over. *)
Lemma fill_inputs_lookup ks i acc m :
  fill_inputs self kwargs ks i acc = Ok m ->
  forall k,
    (k ∈ ks ->
       if decide (k ∈ _bound_inputs self)
       then is_Some (kwargs !! k) /\ m !! k = kwargs !! k
       else exists v x, kwargs !! k = Some v /\ subscript v i = Ok x /\ m !! k = Some x)
    /\ (k ∉ ks -> m !! k = acc !! k).
Proof.
  revert acc. induction ks as [|k0 ks IH]; simpl; intros acc.
  { intros [= <-] k. split; [intros H; inversion H | reflexivity]. }
  destruct (decide (k0 ∈ _bound_inputs self)) as [Hb|Hb]; unfold kwargs_getitem.
  - destruct (kwargs !! k0) as [v0|] eqn:Hk0; simpl; [|discriminate].
    intros Hm k. destruct (IH _ Hm k) as [Hin Hout].
    destruct (decide (k ∈ ks)) as [Hks|Hks].
    + split; [intros _; exact (Hin Hks) | intros Hn; exfalso; apply Hn; by right].
    + split.
      * intros Hk. apply elem_of_cons in Hk as [->|Hk]; [|contradiction].
        rewrite (Hout Hks), lookup_insert_eq.
        destruct (decide _); [|contradiction]. rewrite Hk0. split; [eauto|reflexivity].
      * intros Hk. rewrite (Hout Hks). apply lookup_insert_ne.
        intros ->. apply Hk. by left.
  - destruct (kwargs !! k0) as [v0|] eqn:Hk0; simpl; [|discriminate].
    destruct (subscript v0 i) as [x0|] eqn:Hx0; simpl; [|discriminate].
    intros Hm k. destruct (IH _ Hm k) as [Hin Hout].
    destruct (decide (k ∈ ks)) as [Hks|Hks].
    + split; [intros _; exact (Hin Hks) | intros Hn; exfalso; apply Hn; by right].
    + split.
      * intros Hk. apply elem_of_cons in Hk as [->|Hk]; [|contradiction].
        rewrite (Hout Hks), lookup_insert_eq.
        destruct (decide _); [contradiction|]. eauto.
      * intros Hk. rewrite (Hout Hks). apply lookup_insert_ne.
        intros ->. apply Hk. by left.
Qed.

(** A declared input that cannot be read at index [i] stops the building
    of the inputs of [i]. *)
Lemma fill_inputs_raises ks i acc k :
  k ∈ ks ->
  (exists e, input_at self kwargs k i = Raise e) ->
  exists e, fill_inputs self kwargs ks i acc = Raise e.
Proof.
  intros Hk [e He].
  destruct (fill_inputs self kwargs ks i acc) as [m|e'] eqn:Hm; [|eauto].
  exfalso. destruct (fill_inputs_lookup ks i acc m Hm k) as [Hin _]. specialize (Hin Hk).
  unfold input_at, kwargs_getitem in He.
  destruct (decide (k ∈ _bound_inputs self)).
  - destruct Hin as [[v Hv] _]. rewrite Hv in He. discriminate.
  - destruct Hin as (v & x & Hv & Hx & _). rewrite Hv in He. simpl in He.
    rewrite Hx in He. discriminate.
Qed.

(** The outcome in a record of a faithful log is what the target returned
    on the record's promises, in the world the earlier calls had left. *)
Lemma faithful_at w before c after :
  faithful rt w (before ++ c :: after) ->
  fst (target_call rt (replay rt w before) (call_literals c)) = call_outcome c.
Proof.
  revert w. induction before as [|c0 before IH]; intros w; simpl.
  - intros [H _]. exact H.
  - intros [_ H]. exact (IH _ H).
Qed.

End WholeCall.

(** ** Distribution of the inputs, accounting of failures, aggregation *)

Section Engine.

Context {World : Type} (rt : Runtime World).

(** C9: in every sub-invocation that a call makes, each declared input
    that is bound carries the value given to the call, unchanged, and each
    declared input that is not bound carries the element of its value at
    the index of the sub-invocation.  These inputs are what is translated,
    and the target is called on the outcome: under each name the promise of
    that name holding the literal that the translation gave for it, and
    nothing under any other name; the recorded outcome is what the target
    answered on these promises.  A call that returns has made the N
    sub-invocations of indices 0 to N-1, in this order. *)
Theorem bound_inputs_broadcast self kwargs w c k :
  c ∈ calls (snd (local_execute rt self kwargs w)) ->
  k ∈ keys (inputs (node_python_interface self)) ->
  (if decide (k ∈ _bound_inputs self)
   then is_Some (kwargs !! k) /\ call_inputs c !! k = kwargs !! k
   else exists v x,
          kwargs !! k = Some v /\ subscript v (call_index c) = Ok x
          /\ call_inputs c !! k = Some x)
  /\ (exists literal_map,
        translate_inputs_to_literals rt (call_inputs c) (target_inputs self) = Ok literal_map
        /\ forall k1, call_literals c !! k1 = mkPromise k1 <$> literal_map !! k1)
  /\ (exists before after,
        calls (snd (local_execute rt self kwargs w)) = before ++ c :: after
        /\ fst (target_call rt (replay rt w before) (call_literals c)) = call_outcome c)
  /\ (forall out, fst (local_execute rt self kwargs w) = Ok out ->
      exists n, mapped_entity_count rt self kwargs = Ok n
                /\ call_index <$> calls (snd (local_execute rt self kwargs w)) = range n).
Proof.
  intros Hc Hk.
  pose proof (local_execute_log rt self kwargs w) as Hlog.
  destruct (local_execute rt self kwargs w) as [res st] eqn:Hrun. simpl in Hc |- *.
  destruct Hlog as (Hprep & Hfaith & _).
  rewrite Forall_forall in Hprep. destruct (Hprep c Hc) as (Hin & lm & Htr & Hlit).
  split; [exact (proj1 (fill_inputs_lookup self kwargs _ _ _ _ Hin k) Hk)|].
  split.
  { exists lm. split; [exact Htr|]. intros k1.
    rewrite Hlit. unfold kwargs_literals. rewrite map_lookup_imap.
    destruct (lm !! k1); reflexivity. }
  split.
  { apply list_elem_of_split in Hc as (before & after & Hsplit).
    exists before, after. split; [exact Hsplit|].
    apply (faithful_at rt w before c after). rewrite <- Hsplit. exact Hfaith. }
  intros out ->.
  apply local_execute_returns in Hrun as (n & min & Hn & _ & _ & Hloop & _).
  exists n. split; [exact Hn|].
  pose proof (for_range_spec rt self kwargs n min (range n) (mkState [] 0 w []))
    as (log & Hcalls & _ & _ & _ & _ & _ & Hend).
  rewrite Hloop in Hcalls, Hend. simpl in Hcalls, Hend. rewrite Hcalls. exact (proj1 Hend).
Qed.

(** C3: a call that returns while an output is expected returns the
    promise [o0] of a collection of exactly N literals; the sub-invocation
    of index [i] was called on the inputs built for [i], and slot [i] holds
    the value it returned, or the none literal if it raised. *)
Theorem positional_correspondence self kwargs w out st :
  outputs_expected self = true ->
  local_execute rt self kwargs w = (Ok out, st) ->
  exists n,
    mapped_entity_count rt self kwargs = Ok n
    /\ out = APromise (mkPromise "o0" (Literal_collection (literals st)))
    /\ Z.of_nat (length (literals st)) = n
    /\ faithful rt w (calls st)
    /\ forall i, (i < length (literals st))%nat ->
         exists c,
           calls st !! i = Some c
           /\ call_index c = i
           /\ prepared rt self kwargs c
           /\ literals st !! i
              = Some (match call_outcome c with
                      | Success output => val output
                      | Failed _ => literal_with_none
                      end).
Proof.
  intros Hoe Hrun.
  pose proof (local_execute_log rt self kwargs w) as Hlog. rewrite Hrun in Hlog.
  destruct Hlog as (Hprep & Hfaith & _ & Hlit & _). rewrite Hoe in Hlit.
  apply local_execute_returns in Hrun as (n & min & Hn & Hn0 & _ & Hloop & ->).
  rewrite Hoe.
  pose proof (for_range_spec rt self kwargs n min (range n) (mkState [] 0 w []))
    as (log & Hcalls & _ & _ & _ & _ & _ & Hend).
  rewrite Hloop in Hcalls, Hend. simpl in Hcalls, Hend. destruct Hend as [Hidx _].
  rewrite <- Hcalls in Hidx.
  assert (Hlen : length (calls st) = Z.to_nat n).
  { rewrite <- (length_fmap call_index), Hidx. unfold range. apply length_seq. }
  exists n. split; [exact Hn|]. split; [reflexivity|].
  split; [rewrite Hlit, length_fmap, Hlen; lia|].
  split; [exact Hfaith|].
  intros i Hi. rewrite Hlit, length_fmap in Hi.
  destruct (lookup_lt_is_Some_2 (calls st) i Hi) as [c Hc].
  exists c. split; [exact Hc|].
  split.
  { assert (Hci : (call_index <$> calls st) !! i = Some (call_index c))
      by (rewrite list_lookup_fmap, Hc; reflexivity).
    rewrite Hidx in Hci. unfold range in Hci.
    apply lookup_seq in Hci as [Hci _]. simpl in Hci. congruence. }
  split.
  { rewrite Forall_forall in Hprep. apply Hprep. eapply list_elem_of_lookup_2. exact Hc. }
  rewrite Hlit, list_lookup_fmap, Hc. reflexivity.
Qed.

(** C1: while an output is expected, a sub-invocation that raises [e]
    adds one to [failed_count] and appends the none literal to the result
    sequence; the loop then raises [e], without calling the target on any
    later index, exactly when [N - failed_count] is below the threshold, and
    goes on with the later indices otherwise.  Over a whole call: the final
    [failed_count] is the number of calls that raised, every call has left its
    slot, and a call that raised with too few successes left is the last call
    made, its error being the one the whole call raises. *)
Theorem failure_accounting self kwargs :
  outputs_expected self = true ->
  (forall n min i rest st native literal_map e w',
     single_instance_inputs self kwargs i = Ok native ->
     translate_inputs_to_literals rt native (target_inputs self) = Ok literal_map ->
     target_call rt (world st) (kwargs_literals literal_map) = (Failed e, w') ->
     let st' := mkState (literals st ++ [literal_with_none]) (failed_count st + 1) w'
                  (calls st ++ [mkCall i native (kwargs_literals literal_map) (Failed e)]) in
     for_range rt self kwargs n min (i :: rest) st
     = if n - failed_count st' <? min then Raised e st'
       else for_range rt self kwargs n min rest st')
  /\ (forall w n min,
        mapped_entity_count rt self kwargs = Ok n ->
        min_successes self n = Ok min ->
        let run := local_execute rt self kwargs w in
        failed_count (snd run) = failures (calls (snd run))
        /\ literals (snd run) = slot <$> calls (snd run)
        /\ forall k c,
             calls (snd run) !! k = Some c -> is_failed c = true ->
             n - failures (take (S k) (calls (snd run))) < min ->
             S k = length (calls (snd run))
             /\ exists e, call_outcome c = Failed e /\ fst run = Raise e).
Proof.
  intros Hoe. split.
  - intros n min i rest st native literal_map e w' Hin Htr Hcall. simpl. unfold loop_body.
    rewrite Hin, Htr, Hcall, Hoe. simpl.
    destruct (n - (failed_count st + 1) <? min); reflexivity.
  - intros w n min Hn Hmin run.
    pose proof (local_execute_log rt self kwargs w) as Hlog. fold run in Hlog.
    destruct run as [res st] eqn:Hrun. destruct Hlog as (_ & _ & _ & Hlit & Hfc).
    rewrite Hoe in Hlit, Hfc. simpl.
    split; [exact Hfc|]. split; [exact Hlit|].
    intros k c Hk Hfail Hlt.
    subst run. unfold local_execute in Hrun. rewrite Hn, Hmin in Hrun.
    pose proof (for_range_budget rt self kwargs n min (range n) (mkState [] 0 w [])
                  (calls st) k c Hoe) as Hbudget.
    simpl in Hbudget.
    destruct (for_range rt self kwargs n min (range n) (mkState [] 0 w [])) as [st1|e st1];
      injection Hrun as <- <-; simpl in Hbudget;
      destruct (Hbudget eq_refl Hk Hfail ltac:(lia)) as (Hlen & e' & He' & Hraise).
    + discriminate.
    + injection Hraise as <-. split; [exact Hlen|]. exists e. split; [exact He' | reflexivity].
Qed.

End Engine.

(** ** Validation of the inputs, and the empty call *)

Section Shape.

Context {World : Type} (rt : Runtime World).
Variable self : ArrayNode.
Variable kwargs : gmap string pyval.

(** The scan of lines 109-119 skips the bound keys. *)
Lemma count_mapped_skips bound_keys ks :
  Forall (fun k => k ∈ _bound_inputs self) bound_keys ->
  count_mapped rt self kwargs (bound_keys ++ ks) = count_mapped rt self kwargs ks.
Proof.
  induction 1 as [|k bound_keys Hk _ IH]; [reflexivity|]. simpl.
  destruct (decide _); [exact IH | contradiction].
Qed.

(** No mapped input is found exactly when every declared input is bound. *)
Lemma mapped_entity_count_zero :
  mapped_entity_count rt self kwargs = Ok 0
  <-> Forall (fun k => k ∈ _bound_inputs self) (keys (inputs (node_python_interface self))).
Proof.
  unfold mapped_entity_count.
  induction (keys (inputs (node_python_interface self))) as [|k ks IH]; simpl.
  { split; [constructor | reflexivity]. }
  destruct (decide (k ∈ _bound_inputs self)) as [Hb|Hb].
  { rewrite IH. split; [by constructor | by inversion 1]. }
  split; [|inversion 1; contradiction].
  destruct (kwargs_getitem kwargs k) as [v|]; simpl; [|discriminate].
  destruct v as [| | |[|x items]]; simpl;
    try (destruct (getitem _ k); simpl; discriminate).
  destruct (getitem _ k) as [t|]; simpl; [|discriminate].
  destruct (isinstance rt x t) as [[]|]; simpl; discriminate.
Qed.

(** C5, as the code has it.  Any declared input that is not bound and
    that is missing from the keyword arguments, is [None] or an int, or is
    the empty string or the empty list makes the call raise before any
    sub-invocation: in the scan, in the threshold, or while the inputs of
    index 0 are built.  The first declared input that is not bound is
    checked further by the scan: it must be a list, not empty, whose first
    element is an instance of the declared type, otherwise [ValueError] is
    raised ([KeyError] if it is missing).  What else the values are is left
    to the translation of the inputs; when the translation of index 0
    raises, the call raises that error, again before any sub-invocation. *)
Theorem mapped_inputs_checked w :
  let st0 := mkState [] 0 w [] in
  (forall k,
     k ∈ keys (inputs (node_python_interface self)) ->
     k ∉ _bound_inputs self ->
     kwargs !! k = None
     \/ (exists v, kwargs !! k = Some v
                   /\ (v = PNone \/ (exists z, v = PInt z) \/ v = PStr "" \/ v = PList [])) ->
     exists e,
       local_execute rt self kwargs w = (Raise e, st0)
       /\ (mapped_entity_count rt self kwargs = Raise e
           \/ exists n,
                mapped_entity_count rt self kwargs = Ok n /\ 0 < n
                /\ (min_successes self n = Raise e
                    \/ single_instance_inputs self kwargs 0 = Raise e)))
  /\ (forall bound_keys k later t,
        keys (inputs (node_python_interface self)) = bound_keys ++ k :: later ->
        Forall (fun k' => k' ∈ _bound_inputs self) bound_keys ->
        k ∉ _bound_inputs self ->
        getitem (target_inputs self) k = Ok t ->
        (kwargs !! k = None ->
           local_execute rt self kwargs w = (Raise (KeyError k), st0))
        /\ (forall v, kwargs !! k = Some v ->
              (forall items, v <> PList items) \/ v = PList [] ->
              local_execute rt self kwargs w
              = (Raise (ValueError (expected_list_message t v)), st0))
        /\ (forall x items, kwargs !! k = Some (PList (x :: items)) ->
              isinstance rt x t = Ok false ->
              local_execute rt self kwargs w
              = (Raise (ValueError (expected_list_message t (PList (x :: items)))), st0))
        /\ (forall x items e, kwargs !! k = Some (PList (x :: items)) ->
              isinstance rt x t = Raise e ->
              local_execute rt self kwargs w = (Raise e, st0)))
  /\ (forall n min native e,
        mapped_entity_count rt self kwargs = Ok n -> 0 < n ->
        min_successes self n = Ok min ->
        single_instance_inputs self kwargs 0 = Ok native ->
        translate_inputs_to_literals rt native (target_inputs self) = Raise e ->
        local_execute rt self kwargs w = (Raise e, st0)).
Proof.
  intros st0. split; [|split].
  - intros k Hk Hb Hbad.
    assert (Hraise : exists e, input_at self kwargs k 0 = Raise e).
    { unfold input_at, kwargs_getitem. destruct (decide (k ∈ _bound_inputs self)); [contradiction|].
      destruct Hbad as [->|(v & -> & Hv)]; [eauto|]. simpl.
      destruct Hv as [->|[[z ->]|[->| ->]]]; simpl; eauto. }
    destruct (fill_inputs_raises self kwargs _ 0%nat ∅ k Hk Hraise) as [e0 He0].
    unfold local_execute.
    destruct (mapped_entity_count rt self kwargs) as [n|e] eqn:Hn;
      [|exists e; split; [reflexivity | left; reflexivity]].
    assert (Hpos : 0 < n).
    { pose proof (count_mapped_nonneg rt self kwargs _ _ Hn) as Hnn.
      destruct (Z.eq_dec n 0) as [->|]; [|lia].
      apply mapped_entity_count_zero in Hn. rewrite Forall_forall in Hn.
      exfalso. apply Hb, Hn, Hk. }
    destruct (min_successes self n) as [min|e] eqn:Hmin;
      [|exists e; split; [reflexivity | right; exists n; eauto]].
    exists e0. split.
    + unfold range. destruct (Z.to_nat n) as [|m] eqn:Hm; [lia|].
      cbn [seq for_range]. unfold loop_body, single_instance_inputs. rewrite He0. reflexivity.
    + right. exists n. split; [reflexivity|]. split; [exact Hpos|]. right. exact He0.
  - intros bound_keys k later t Hkeys Hbound Hk Ht.
    assert (Hscan : mapped_entity_count rt self kwargs
                    = count_mapped rt self kwargs (k :: later))
      by (unfold mapped_entity_count; rewrite Hkeys; apply count_mapped_skips, Hbound).
    unfold local_execute. rewrite Hscan. simpl.
    destruct (decide (k ∈ _bound_inputs self)); [contradiction|].
    unfold kwargs_getitem. rewrite Ht.
    split; [intros ->; reflexivity|].
    split.
    { intros v -> [Hv| ->]; [|reflexivity].
      destruct v as [| | |[|x items]]; try reflexivity. exfalso. eapply Hv. reflexivity. }
    split.
    + intros x items -> Hx. simpl. rewrite Hx. reflexivity.
    + intros x items e -> Hx. simpl. rewrite Hx. reflexivity.
  - intros n min native e Hn Hpos Hmin Hin Htr.
    unfold local_execute. rewrite Hn, Hmin.
    unfold range. destruct (Z.to_nat n) as [|m] eqn:Hm; [lia|].
    cbn [seq for_range]. unfold loop_body. rewrite Hin, Htr. reflexivity.
Qed.

(** C6, as the code has it.  N = 0 comes only from a node all of whose
    declared inputs are bound.  The call then makes no sub-invocation and
    leaves the world as it was; it returns at once the promise of an empty
    collection, or the void promise of a target without output, unless the
    threshold cannot be computed: with no [min_successes] other than 0 and a
    ratio that is infinite or NaN, [math.ceil] raises [ValueError]. *)
Theorem empty_call w :
  mapped_entity_count rt self kwargs = Ok 0 ->
  Forall (fun k => k ∈ _bound_inputs self) (keys (inputs (node_python_interface self)))
  /\ snd (local_execute rt self kwargs w) = mkState [] 0 w []
  /\ fst (local_execute rt self kwargs w)
     = (if int_truthy (_min_successes self)
           || default true (PyFloat.is_finite <$> _min_success_ratio self)
        then Ok (if outputs_expected self
                 then APromise (mkPromise "o0" (Literal_collection []))
                 else VoidPromise (node_name self))
        else Raise (ValueError "cannot convert float NaN to integer")).
Proof.
  intros Hn. split; [apply mapped_entity_count_zero, Hn|].
  unfold local_execute. rewrite Hn, min_successes_unfold.
  destruct (int_truthy (_min_successes self)); [split; reflexivity|].
  unfold ratio_threshold. destruct (_min_success_ratio self) as [r|]; [|split; reflexivity].
  change (default true (PyFloat.is_finite <$> Some r)) with (PyFloat.is_finite r).
  destruct (PyFloat.is_finite r) eqn:Hfin.
  - destruct (PyFloat.truthy r); [|split; reflexivity].
    rewrite PyFloatFacts.ceil_mul_zero by exact Hfin. split; reflexivity.
  - assert (Htruthy : PyFloat.truthy r = true) by (destruct r; done).
    rewrite Htruthy, PyFloatFacts.ceil_mul_zero_not_finite by exact Hfin.
    split; reflexivity.
Qed.

(** Without an expected output no failure of the target is counted, nothing
    is appended, and the call never raises what the target raised: it can
    only raise from the scan, from the threshold, or while preparing the
    inputs of an index. *)
Lemma void_target_ignores_failures w :
  outputs_expected self = false ->
  let run := local_execute rt self kwargs w in
  failed_count (snd run) = 0
  /\ literals (snd run) = []
  /\ forall e, fst run = Raise e ->
       mapped_entity_count rt self kwargs = Raise e
       \/ exists n, mapped_entity_count rt self kwargs = Ok n
            /\ (min_successes self n = Raise e
                \/ exists i, preparation_raises rt self kwargs i e).
Proof.
  intros Hoe run.
  pose proof (local_execute_log rt self kwargs w) as Hlog. fold run in Hlog.
  destruct run as [res st] eqn:Hrun. destruct Hlog as (_ & _ & _ & Hlit & Hfc).
  rewrite Hoe in Hlit, Hfc. simpl.
  split; [exact Hfc|]. split; [exact Hlit|].
  intros e ->. subst run. unfold local_execute in Hrun.
  destruct (mapped_entity_count rt self kwargs) as [n|e0]; [|left; congruence].
  right. exists n. split; [reflexivity|].
  destruct (min_successes self n) as [min|e0]; [|left; congruence].
  right.
  pose proof (for_range_spec rt self kwargs n min (range n) (mkState [] 0 w []))
    as (log & _ & _ & _ & _ & _ & _ & Hend).
  destruct (for_range rt self kwargs n min (range n) (mkState [] 0 w [])) as [st1|e1 st1];
    [discriminate|].
  injection Hrun as -> _.
  destruct Hend as (done & i & rest & _ & [[_ Hp]|(_ & Hoe' & _)]); [eauto | congruence].
Qed.

End Shape.

(** ** Optional outputs and fatal failures *)

Lemma failures_zero log : failures log = 0 -> Forall (fun c => is_failed c = false) log.
Proof.
  induction log as [|c log IH]; [constructor|].
  rewrite failures_cons. pose proof (failures_nonneg log).
  destruct (is_failed c) eqn:Hc; [lia|]. intros H0. constructor; [exact Hc | apply IH; lia].
Qed.

Lemma T_Optional_neq t : T_Optional t <> t.
Proof. induction t; congruence. Qed.

(** With the threshold at N, a call that returns has seen no failure. *)
Lemma zero_tolerance {World : Type} (rt : Runtime World) self kwargs w out st n :
  outputs_expected self = true ->
  mapped_entity_count rt self kwargs = Ok n ->
  min_successes self n = Ok n ->
  local_execute rt self kwargs w = (Ok out, st) ->
  failed_count st = 0
  /\ Forall (fun c => exists output, call_outcome c = Success output) (calls st).
Proof.
  intros Hoe Hn Hmin Hrun.
  pose proof (local_execute_log rt self kwargs w) as Hlog. rewrite Hrun in Hlog.
  destruct Hlog as (_ & _ & _ & _ & Hfc). rewrite Hoe in Hfc.
  apply local_execute_returns in Hrun as (n' & min & Hn' & _ & Hmin' & Hloop & _).
  assert (n' = n) by congruence. subst n'. assert (min = n) by congruence. subst min.
  pose proof (for_range_spec rt self kwargs n n (range n) (mkState [] 0 w []))
    as (log & _ & _ & _ & _ & _ & _ & Hend).
  rewrite Hloop in Hend. simpl in Hend. destruct Hend as [_ Hbudget].
  pose proof (failures_nonneg (calls st)).
  assert (H0 : failed_count st = 0) by lia.
  split; [exact H0|].
  rewrite H0 in Hfc. symmetry in Hfc. apply failures_zero in Hfc.
  eapply Forall_impl; [exact Hfc|]. intros c. unfold is_failed.
  destruct (call_outcome c); [eauto | discriminate].
Qed.

(** C8, as the code has it: for a target with one output, the output of
    the derived interface is a list of Optional exactly when a ratio other
    than 1 is configured, and is the plain list otherwise.  In the latter
    case, and when moreover no [min_successes] other than 0 is configured,
    any failure is fatal: a call that returns (N below 2^53) has counted no
    failure and every sub-invocation has returned its value. *)
Theorem optional_outputs {World : Type} (rt : Runtime World) t c ms r b v md self o T :
  __init__ t c ms r b v md = Ok self ->
  outputs (python_interface t) = [(o, T)] ->
  let partial := exists f, r = Some f /\ PyFloat.eqb_int f 1 = false in
  (outputs (node_python_interface self) = [(o, T_List (T_Optional T))] <-> partial)
  /\ (~ partial ->
      outputs (node_python_interface self) = [(o, T_List T)]
      /\ (int_truthy ms = false ->
          forall kwargs w out st n,
            mapped_entity_count rt self kwargs = Ok n -> n < 2 ^ 53 ->
            local_execute rt self kwargs w = (Ok out, st) ->
            failed_count st = 0
            /\ Forall (fun c => exists output, call_outcome c = Success output) (calls st))).
Proof.
  intros Hinit Hout partial.
  apply init_builds in Hinit as (-> & _). unfold node_python_interface. simpl.
  rewrite Hout. simpl. rewrite decide_False by set_solver.
  assert (Hflag : output_as_list_of_optionals r 1 = true <-> partial).
  { unfold output_as_list_of_optionals, partial. destruct r as [f|].
    - rewrite andb_true_r, negb_true_iff. split; [eauto|]. intros (f' & [= <-] & H). exact H.
    - split; [discriminate|]. intros (f' & [= ] & _). }
  split.
  { rewrite <- Hflag. destruct (output_as_list_of_optionals r 1).
    - split; reflexivity.
    - split; [|discriminate]. intros [= H]. exfalso. exact (T_Optional_neq T (eq_sym H)). }
  intros Hnot.
  assert (Hoff : output_as_list_of_optionals r 1 = false).
  { destruct (output_as_list_of_optionals r 1); [|reflexivity].
    exfalso. apply Hnot, Hflag. reflexivity. }
  rewrite Hoff. split; [reflexivity|].
  intros Hms kwargs w out st n Hn Hlt Hrun.
  eapply (zero_tolerance rt _ kwargs w out st n); [| exact Hn | | exact Hrun].
  - unfold outputs_expected, node_python_interface. simpl. rewrite Hout. reflexivity.
  - rewrite min_successes_unfold. simpl. rewrite Hms.
    unfold ratio_threshold. destruct r as [f|]; [|reflexivity].
    assert (Hf : PyFloat.eqb_int f 1 = true).
    { destruct (PyFloat.eqb_int f 1) eqn:Hf; [reflexivity|]. exfalso. apply Hnot.
      exists f. split; [reflexivity | exact Hf]. }
    apply PyFloatFacts.eqb_int_1 in Hf. subst f. simpl.
    apply PyFloatFacts.ceil_mul_one. split; [|exact Hlt].
    eapply count_mapped_nonneg. exact Hn.
Qed.

(** ** The scenarios, run *)

Example double_one : PyFloat.of_int 1 = S754_finite false 4503599627370496 (-52).
Proof. reflexivity. Qed.

Example double_0_5 : PyFloat.literal 5 10 = S754_finite false 4503599627370496 (-53).
Proof. vm_compute. reflexivity. Qed.

Example double_0_8 : PyFloat.literal 8 10 = S754_finite false 7205759403792794 (-53).
Proof. vm_compute. reflexivity. Qed.

Example double_0_75 : PyFloat.literal 75 100 = S754_finite false 6755399441055744 (-53).
Proof. vm_compute. reflexivity. Qed.

Example threshold_of_scenarios : min_successes Runs.tolerant 4 = Ok 3.
Proof. vm_compute. reflexivity. Qed.

(** Scenario A: a tolerated failure at the end. *)
Example scenario_A :
  let (res, st) := local_execute Scenario.runtime Runs.tolerant (Runs.x_is [1; 2; 3; -1]) 0%nat in
  res = Ok (APromise (mkPromise "o0" (Literal_collection
          [Scenario.r 1; Scenario.r 2; Scenario.r 3; literal_with_none])))
  /\ failed_count st = 1 /\ world st = 4%nat.
Proof. vm_compute. auto. Qed.

(** Scenario B: a tolerated failure at the start. *)
Example scenario_B :
  fst (local_execute Scenario.runtime Runs.tolerant (Runs.x_is [-1; 1; 2; 3]) 0%nat)
  = Ok (APromise (mkPromise "o0" (Literal_collection
          [literal_with_none; Scenario.r 1; Scenario.r 2; Scenario.r 3]))).
Proof. vm_compute. reflexivity. Qed.

(** Scenario C: the second failure exhausts the budget. *)
Example scenario_C :
  let (res, st) := local_execute Scenario.runtime Runs.tolerant (Runs.x_is [-1; -1; -1; 1]) 0%nat in
  res = Raise (TaskFailure (-1))
  /\ literals st = [literal_with_none; literal_with_none]
  /\ failed_count st = 2
  /\ call_index <$> calls st = [0%nat; 1%nat]
  /\ world st = 2%nat.
Proof. vm_compute. auto 10. Qed.

(** Without tolerance the first failure aborts. *)
Example zero_tolerance_abort :
  let (res, st) := local_execute Scenario.runtime Runs.strict (Runs.x_is [1; -2; 3]) 0%nat in
  res = Raise (TaskFailure (-2)) /\ call_index <$> calls st = [0%nat; 1%nat].
Proof. vm_compute. auto. Qed.

(** C4 fails on the code.  A target without output that raises in its only
    sub-invocation, under zero tolerance: the failure is not counted and the
    call returns the void promise instead of raising. *)
Theorem void_target_failure_swallowed :
  let (res, st) := local_execute Scenario.runtime Runs.void (Runs.x_is [-1]) 0%nat in
  outputs_expected Runs.void = false
  /\ min_successes Runs.void 1 = Ok 1
  /\ call_outcome <$> calls st = [Failed (TaskFailure (-1))]
  /\ failed_count st = 0
  /\ res = Ok (VoidPromise "lp").
Proof. vm_compute. auto 10. Qed.

(** C5, as the specification words it, fails: a mapped list whose second
    element has the wrong type passes the check, and the error comes only
    after the first sub-invocation has run. *)
Lemma later_element_not_checked :
  let kwargs : gmap string pyval := {[ "x"%string := PList [PInt 1; PStr "a"] ]} in
  mapped_entity_count Scenario.runtime Runs.strict kwargs = Ok 2
  /\ (let (res, st) := local_execute Scenario.runtime Runs.strict kwargs 0%nat in
      res = Raise (TypeError "Failed to convert inputs")
      /\ call_index <$> calls st = [0%nat]
      /\ call_outcome <$> calls st = [Success (mkPromise "o0" (Scenario.r 1))]
      /\ world st = 1%nat).
Proof. vm_compute. auto 10. Qed.

(** C6, as the specification words it, fails: with the only input bound
    there is nothing to map, N = 0, and yet with an infinite ratio the call
    raises instead of returning the empty collection, since [0 * inf] is NaN. *)
Lemma empty_call_with_infinite_ratio_raises :
  let self := built (__init__ Scenario.int_to_int None None (Some (S754_infinity false))
                       (Some {[ "x"%string ]}) None None) in
  let kwargs : gmap string pyval := {[ "x"%string := PInt 3 ]} in
  mapped_entity_count Scenario.runtime self kwargs = Ok 0
  /\ local_execute Scenario.runtime self kwargs 0%nat
     = (Raise (ValueError "cannot convert float NaN to integer"), mkState [] 0 0%nat []).
Proof. vm_compute. auto. Qed.

(** An empty list for the mapped input does not give N = 0 either: it is
    refused. *)
Example empty_mapped_list_is_refused :
  fst (local_execute Scenario.runtime Runs.tolerant (Runs.x_is []) 0%nat)
  = Raise (ValueError "Expected a list of <class 'int'> but got <class 'list'> instead.").
Proof. vm_compute. reflexivity. Qed.

(** C8, as the specification words it, fails: with [min_successes=1] and
    no ratio the output is not a list of Optional, yet a failure is tolerated
    and the call returns a partial result. *)
Lemma partial_result_without_optional :
  let self := built (__init__ Scenario.int_to_int None (Some 1) None None None None) in
  outputs (node_python_interface self) = [("o0"%string, T_List T_int)]
  /\ fst (local_execute Scenario.runtime self (Runs.x_is [-1; 1]) 0%nat)
     = Ok (APromise (mkPromise "o0" (Literal_collection [literal_with_none; Scenario.r 1]))).
Proof. vm_compute. auto. Qed.

(** ** The theorems at the scenarios *)

(** Scenario C at index 1: the second failure leaves 2 of 4 and aborts. *)
Lemma failure_accounting_witness :
  let native : gmap string pyval := <["x"%string := PInt (-1)]> ∅ in
  let promises := kwargs_literals (<["x"%string := Literal_scalar (Primitive_integer (-1))]> ∅) in
  let call (i : nat) := mkCall i native promises (Failed (TaskFailure (-1))) in
  for_range Scenario.runtime Runs.tolerant (Runs.x_is [-1; -1; -1; 1]) 4 3
    [1%nat; 2%nat; 3%nat] (mkState [literal_with_none] 1 1%nat [call 0%nat])
  = Raised (TaskFailure (-1))
      (mkState [literal_with_none; literal_with_none] 2 2%nat [call 0%nat; call 1%nat]).
Proof.
  intros native promises call.
  apply (proj1 (failure_accounting Scenario.runtime Runs.tolerant
                  (Runs.x_is [-1; -1; -1; 1]) eq_refl)
           4 3 1%nat [2%nat; 3%nat] (mkState [literal_with_none] 1 1%nat [call 0%nat])
           native (<["x"%string := Literal_scalar (Primitive_integer (-1))]> ∅)
           (TaskFailure (-1)) 2%nat);
    vm_compute; reflexivity.
Defined.

(** Scenario A: four slots for four inputs. *)
Lemma positional_correspondence_witness :
  let run := local_execute Scenario.runtime Runs.tolerant (Runs.x_is [1; 2; 3; -1]) 0%nat in
  exists n,
    mapped_entity_count Scenario.runtime Runs.tolerant (Runs.x_is [1; 2; 3; -1]) = Ok n
    /\ Z.of_nat (length (literals (snd run))) = n.
Proof.
  intros run.
  destruct (positional_correspondence Scenario.runtime Runs.tolerant
              (Runs.x_is [1; 2; 3; -1]) 0%nat
              (APromise (mkPromise "o0" (Literal_collection
                 [Scenario.r 1; Scenario.r 2; Scenario.r 3; literal_with_none])))
              (snd run))
    as (n & Hn & _ & Hlen & _).
  - vm_compute. reflexivity.
  - vm_compute. reflexivity.
  - exists n. split; [exact Hn | exact Hlen].
Defined.

(** A node with the input [y] bound: every call gets [y] whole and one
    element of [x], and the target is called on the promises of both. *)
Lemma bound_inputs_broadcast_witness :
  let self := built (__init__
                 (Scenario.lp [("x"%string, T_int); ("y"%string, T_str)] [("o0"%string, T_int)])
                 None None None (Some {[ "y"%string ]}) None None) in
  let kwargs : gmap string pyval :=
    <["y"%string := PStr "shared"]> (Runs.x_is [5; 6; 7]) in
  let c := Runs.first_call self kwargs in
  (is_Some (kwargs !! "y"%string) /\ call_inputs c !! "y"%string = kwargs !! "y"%string)
  /\ (exists v x, kwargs !! "x"%string = Some v /\ subscript v (call_index c) = Ok x
                  /\ call_inputs c !! "x"%string = Some x)
  /\ call_literals c !! "y"%string
     = Some (mkPromise "y" (Literal_scalar (Primitive_string "shared")))
  /\ call_literals c !! "x"%string
     = Some (mkPromise "x" (Literal_scalar (Primitive_integer 5)))
  /\ call_literals c !! "z"%string = None.
Proof.
  intros self kwargs c.
  assert (Hc : c ∈ calls (snd (local_execute Scenario.runtime self kwargs 0%nat))).
  { apply (list_elem_of_lookup_2 _ 0%nat). vm_compute. reflexivity. }
  pose proof (bound_inputs_broadcast Scenario.runtime self kwargs 0%nat c "y" Hc
                (list_elem_of_further _ _ _ (list_elem_of_here _ _)))
    as (Hy & (literal_map & Htranslated & Hpromises) & _).
  split; [exact Hy|].
  split.
  - apply (proj1 (bound_inputs_broadcast Scenario.runtime self kwargs 0%nat c "x" Hc
                    (list_elem_of_here _ _))).
  - rewrite !Hpromises. vm_compute in Htranslated. injection Htranslated as <-.
    vm_compute. auto.
Defined.

(** An empty list for the only mapped input is refused before any call;
    so is a call that leaves out the second mapped input, and one whose
    second mapped input the translation of index 0 rejects. *)
Lemma mapped_inputs_checked_witness :
  local_execute Scenario.runtime Runs.strict (Runs.x_is []) 7%nat
  = (Raise (ValueError "Expected a list of <class 'int'> but got <class 'list'> instead."),
     mkState [] 0 7%nat [])
  /\ local_execute Scenario.runtime MoreRuns.both_mapped (Runs.x_is [1; 2]) 7%nat
     = (Raise (KeyError "y"), mkState [] 0 7%nat [])
  /\ local_execute Scenario.runtime MoreRuns.both_mapped
       (<["y"%string := PList [PStr "a"]]> (Runs.x_is [1])) 7%nat
     = (Raise (TypeError "Failed to convert inputs"), mkState [] 0 7%nat []).
Proof.
  split; [|split].
  - apply (proj1 (proj2 (proj1 (proj2 (mapped_inputs_checked Scenario.runtime Runs.strict
                                         (Runs.x_is []) 7%nat))
                           [] "x"%string [] T_int eq_refl (Forall_nil_2 _)
                           (not_elem_of_empty "x"%string) eq_refl))
             (PList [])).
    + vm_compute. reflexivity.
    + right. reflexivity.
  - destruct (proj1 (mapped_inputs_checked Scenario.runtime MoreRuns.both_mapped
                       (Runs.x_is [1; 2]) 7%nat) "y"%string)
      as (e & Hrun & _).
    + apply list_elem_of_further, list_elem_of_here.
    + apply not_elem_of_empty.
    + left. vm_compute. reflexivity.
    + rewrite Hrun. vm_compute in Hrun. injection Hrun as <-. reflexivity.
  - apply (proj2 (proj2 (mapped_inputs_checked Scenario.runtime MoreRuns.both_mapped
                           (<["y"%string := PList [PStr "a"]]> (Runs.x_is [1])) 7%nat))
             1 1 (<["y"%string := PStr "a"]> (<["x"%string := PInt 1]> ∅)));
      [vm_compute; reflexivity | lia | vm_compute; reflexivity
      | vm_compute; reflexivity | vm_compute; reflexivity].
Defined.

(** A launch plan whose only input is bound: there is nothing to map. *)
Lemma empty_call_witness :
  let self := built (__init__ Scenario.int_to_int None None (Some (PyFloat.literal 5 10))
                       (Some {[ "x"%string ]}) None None) in
  local_execute Scenario.runtime self {[ "x"%string := PInt 3 ]} 0%nat
  = (Ok (APromise (mkPromise "o0" (Literal_collection []))), mkState [] 0 0%nat []).
Proof.
  intros self.
  destruct (empty_call Scenario.runtime self {[ "x"%string := PInt 3 ]} 0%nat)
    as (_ & Hstate & Hvalue).
  - vm_compute. reflexivity.
  - rewrite (surjective_pairing (local_execute _ _ _ _)), Hstate, Hvalue.
    reflexivity.
Defined.

(** Ratio 1: no Optional in the output, and a call that returns has only
    successes. *)
Lemma optional_outputs_witness :
  let self := built (Scenario.ratio_node Scenario.int_to_int 1 1) in
  outputs (node_python_interface self) = [("o0"%string, T_List T_int)]
  /\ failed_count (snd (local_execute Scenario.runtime self (Runs.x_is [1; 2]) 0%nat)) = 0.
Proof.
  intros self.
  destruct (optional_outputs Scenario.runtime Scenario.int_to_int None None
              (Some (PyFloat.literal 1 1)) None None None self "o0" T_int
              eq_refl eq_refl) as [_ Hplain].
  destruct Hplain as [Hout Hfatal].
  { intros (f & [= <-] & Hf). vm_compute in Hf. discriminate. }
  split; [exact Hout|].
  destruct (Hfatal eq_refl (Runs.x_is [1; 2]) 0%nat
              (APromise (mkPromise "o0" (Literal_collection [Scenario.r 1; Scenario.r 2])))
              (snd (local_execute Scenario.runtime self (Runs.x_is [1; 2]) 0%nat)) 2)
    as [H0 _].
  - vm_compute. reflexivity.
  - reflexivity.
  - vm_compute. reflexivity.
  - exact H0.
Defined.

(** * More of the node *)

(** ** What a call reads of its keyword arguments *)

Section Reads.

Context {World : Type} (rt : Runtime World).
Variable self : ArrayNode.

(** The scan finds N = 0 when every declared input is bound, and otherwise
    the length of the list given for the first declared input that is not
    bound, whose first element is an instance of the declared type; it
    looks at no other input. *)
Theorem mapped_entity_count_is kwargs n :
  mapped_entity_count rt self kwargs = Ok n
  <-> (Forall (fun k => k ∈ _bound_inputs self) (keys (inputs (node_python_interface self)))
       /\ n = 0)
      \/ (exists bound_keys k later x items t,
            keys (inputs (node_python_interface self)) = bound_keys ++ k :: later
            /\ Forall (fun k' => k' ∈ _bound_inputs self) bound_keys
            /\ (k ∉ _bound_inputs self)
            /\ kwargs !! k = Some (PList (x :: items))
            /\ getitem (target_inputs self) k = Ok t
            /\ isinstance rt x t = Ok true
            /\ n = Z.of_nat (length (x :: items))).
Proof.
  unfold mapped_entity_count.
  induction (keys (inputs (node_python_interface self))) as [|k ks IH].
  { simpl. split.
    - intros [= <-]. left. split; [constructor | reflexivity].
    - intros [[_ ->]|(bk & k & later & x & items & t & Hks & _)]; [reflexivity|].
      destruct bk; discriminate. }
  simpl. destruct (decide (k ∈ _bound_inputs self)) as [Hb|Hb].
  - rewrite IH. split.
    + intros [[Hall ->]|(bk & k' & later & x & items & t & -> & Hbk & Hrest)].
      * left. split; [by constructor | reflexivity].
      * right. exists (k :: bk), k', later, x, items, t.
        split; [reflexivity|]. split; [by constructor | exact Hrest].
    + intros [[Hall ->]|(bk & k' & later & x & items & t & Hks & Hbk & Hk' & Hrest)].
      * left. split; [by inversion Hall | reflexivity].
      * destruct bk as [|k0 bk]; simpl in Hks; injection Hks as -> ->; [contradiction|].
        right. exists bk, k', later, x, items, t.
        split; [reflexivity|]. split; [by inversion Hbk|]. split; [exact Hk' | exact Hrest].
  - unfold kwargs_getitem. split.
    + destruct (kwargs !! k) as [v|] eqn:Hv; simpl; [|discriminate].
      destruct v as [| | |[|x items]]; simpl;
        try (destruct (getitem _ k); simpl; discriminate).
      destruct (getitem (target_inputs self) k) as [t|] eqn:Ht; simpl; [|discriminate].
      destruct (isinstance rt x t) as [[]|] eqn:Hx; simpl; try discriminate.
      intros [= <-]. right. exists [], k, ks, x, items, t.
      repeat split; done.
    + intros [[Hall _]|(bk & k' & later & x & items & t & Hks & Hbk & Hk' & Hv & Ht & Hx & ->)].
      * inversion Hall; contradiction.
      * destruct bk as [|k0 bk]; simpl in Hks; injection Hks as -> ->.
        -- rewrite Hv. simpl. rewrite Ht. simpl. rewrite Hx. reflexivity.
        -- inversion Hbk; contradiction.
Qed.

Lemma count_mapped_ext kwargs1 kwargs2 ks :
  (forall k, k ∈ ks -> kwargs1 !! k = kwargs2 !! k) ->
  count_mapped rt self kwargs1 ks = count_mapped rt self kwargs2 ks.
Proof.
  induction ks as [|k ks IH]; intros H; [reflexivity|]. simpl.
  rewrite IH by (intros k' Hk'; apply H; by right).
  unfold kwargs_getitem. rewrite (H k) by (by left). reflexivity.
Qed.

Lemma fill_inputs_ext kwargs1 kwargs2 ks i acc :
  (forall k, k ∈ ks -> input_at self kwargs1 k i = input_at self kwargs2 k i) ->
  fill_inputs self kwargs1 ks i acc = fill_inputs self kwargs2 ks i acc.
Proof.
  revert acc. induction ks as [|k ks IH]; intros acc H; [reflexivity|]. simpl.
  pose proof (H k ltac:(by left)) as Hk. unfold input_at in Hk. rewrite Hk. clear Hk.
  destruct (if decide (k ∈ _bound_inputs self) then _ else _); simpl; [|reflexivity].
  apply IH. intros k' Hk'. apply H. by right.
Qed.

Lemma for_range_ext kwargs1 kwargs2 n min idx st :
  (forall i k, i ∈ idx -> k ∈ keys (inputs (node_python_interface self)) ->
     input_at self kwargs1 k i = input_at self kwargs2 k i) ->
  for_range rt self kwargs1 n min idx st = for_range rt self kwargs2 n min idx st.
Proof.
  revert st. induction idx as [|i idx IH]; intros st H; [reflexivity|]. simpl.
  assert (Hbody : loop_body rt self kwargs1 n min i st = loop_body rt self kwargs2 n min i st).
  { unfold loop_body, single_instance_inputs.
    rewrite (fill_inputs_ext kwargs1 kwargs2) by (intros k Hk; apply H; [by left | exact Hk]).
    reflexivity. }
  rewrite Hbody. destruct (loop_body rt self kwargs2 n min i st); [|reflexivity].
  apply IH. intros j k Hj Hk. apply H; [by right | exact Hk].
Qed.

(** A call with the same N that reads the same values at the indices below
    N does the same. *)
Lemma local_execute_ext kwargs1 kwargs2 w n :
  mapped_entity_count rt self kwargs1 = Ok n ->
  mapped_entity_count rt self kwargs2 = Ok n ->
  (forall i k, (i < Z.to_nat n)%nat -> k ∈ keys (inputs (node_python_interface self)) ->
     input_at self kwargs1 k i = input_at self kwargs2 k i) ->
  local_execute rt self kwargs1 w = local_execute rt self kwargs2 w.
Proof.
  intros H1 H2 H. unfold local_execute. rewrite H1, H2.
  destruct (min_successes self n) as [min|]; [|reflexivity].
  rewrite (for_range_ext kwargs1 kwargs2); [reflexivity|].
  intros i k Hi Hk. apply H; [|exact Hk].
  unfold range in Hi. apply elem_of_seq in Hi. lia.
Qed.

(** Keyword arguments that the interface does not declare are ignored: two
    calls that agree on the declared inputs return the same, make the same
    sub-invocations and leave the same state. *)
Theorem undeclared_kwargs_ignored kwargs1 kwargs2 w :
  (forall k, k ∈ keys (inputs (node_python_interface self)) -> kwargs1 !! k = kwargs2 !! k) ->
  local_execute rt self kwargs1 w = local_execute rt self kwargs2 w.
Proof.
  intros H. unfold local_execute, mapped_entity_count.
  rewrite (count_mapped_ext kwargs1 kwargs2) by exact H.
  destruct (count_mapped rt self kwargs2 _) as [n|]; [|reflexivity].
  destruct (min_successes self n) as [min|]; [|reflexivity].
  rewrite (for_range_ext kwargs1 kwargs2); [reflexivity|].
  intros i k _ Hk. unfold input_at, kwargs_getitem. rewrite (H k Hk). reflexivity.
Qed.

(** Of a mapped list only the first N elements are read: when N stays the
    same, elements added after them change nothing. *)
Theorem elements_beyond_N_ignored kwargs w k items extra n :
  k ∉ _bound_inputs self ->
  kwargs !! k = Some (PList items) ->
  mapped_entity_count rt self kwargs = Ok n ->
  mapped_entity_count rt self (<[k := PList (items ++ extra)]> kwargs) = Ok n ->
  n <= Z.of_nat (length items) ->
  local_execute rt self (<[k := PList (items ++ extra)]> kwargs) w
  = local_execute rt self kwargs w.
Proof.
  intros Hb Hk Hn Hn' Hlen. apply (local_execute_ext _ _ w n Hn' Hn).
  intros i k' Hi _. unfold input_at, kwargs_getitem.
  destruct (decide (k' = k)) as [->|Hne].
  - rewrite lookup_insert_eq, Hk. destruct (decide (k ∈ _bound_inputs self)); [contradiction|].
    simpl. rewrite lookup_app_l by lia. reflexivity.
  - rewrite lookup_insert_ne by congruence. reflexivity.
Qed.

End Reads.

(** ** The course of a call *)

Lemma seq_split_at (n : nat) (done : list nat) (i : nat) (rest : list nat) :
  seq 0 n = done ++ i :: rest ->
  done = seq 0 (length done) /\ i = length done /\ (length done < n)%nat.
Proof.
  intros H.
  assert (Hn : n = (length done + S (length rest))%nat).
  { apply (f_equal length) in H. rewrite length_seq, length_app in H. simpl in H. lia. }
  subst n. rewrite seq_app in H. simpl in H.
  apply app_inj_1 in H as [H1 H2]; [|by rewrite length_seq].
  injection H2 as H2 _. split; [by symmetry|]. split; [by symmetry | lia].
Qed.

Lemma failures_le_length log : failures log <= Z.of_nat (length log).
Proof.
  induction log as [|c log IH]; [unfold failures; simpl; lia|].
  rewrite failures_cons. simpl length. destruct (is_failed c); lia.
Qed.

Lemma failures_take_pos log k c :
  log !! k = Some c -> is_failed c = true -> 1 <= failures (take (S k) log).
Proof.
  revert k. induction log as [|c0 log IH]; intros k Hk Hc; [by rewrite lookup_nil in Hk|].
  change (take (S k) (c0 :: log)) with (c0 :: take k log). rewrite failures_cons.
  destruct k as [|k]; simpl in Hk.
  - injection Hk as ->. rewrite Hc. pose proof (failures_nonneg (take 0 log)). lia.
  - specialize (IH k Hk Hc). destruct (is_failed c0); lia.
Qed.

Section Course.

Context {World : Type} (rt : Runtime World).
Variable self : ArrayNode.
Variable kwargs : gmap string pyval.

(** A call ends in one of four ways: it returns after the whole range; the
    scan or the threshold raises before the loop; preparing the inputs of the
    next index raises; or the last call failed and exhausted the budget. *)
Lemma local_execute_cases w :
  let run := local_execute rt self kwargs w in
  let st := snd run in
  call_index <$> calls st = seq 0 (length (calls st))
  /\ ((exists e, run = (Raise e, initial_state w)
         /\ (mapped_entity_count rt self kwargs = Raise e
             \/ exists n, mapped_entity_count rt self kwargs = Ok n
                          /\ min_successes self n = Raise e))
      \/ exists n min,
           mapped_entity_count rt self kwargs = Ok n
           /\ min_successes self n = Ok min
           /\ (length (calls st) <= Z.to_nat n)%nat
           /\ ((exists out, fst run = Ok out /\ length (calls st) = Z.to_nat n
                  /\ (0 < failed_count st -> min <= n - failed_count st))
               \/ (exists e, fst run = Raise e
                     /\ (length (calls st) < Z.to_nat n)%nat
                     /\ preparation_raises rt self kwargs (length (calls st)) e)
               \/ (exists e c, fst run = Raise e
                     /\ outputs_expected self = true
                     /\ last (calls st) = Some c /\ call_outcome c = Failed e
                     /\ n - failed_count st < min))).
Proof.
  unfold local_execute, initial_state.
  destruct (mapped_entity_count rt self kwargs) as [n|e] eqn:Hn.
  2: { simpl. split; [reflexivity|]. left. exists e. split; [reflexivity | by left]. }
  destruct (min_successes self n) as [min|e] eqn:Hmin.
  2: { simpl. split; [reflexivity|]. left. exists e. split; [reflexivity|].
       right. exists n. split; [reflexivity | exact Hmin]. }
  pose proof (for_range_spec rt self kwargs n min (range n) (mkState [] 0 w []))
    as (log & Hlog & _ & _ & _ & _ & _ & Hend).
  destruct (for_range rt self kwargs n min (range n) (mkState [] 0 w [])) as [st|e st];
    simpl in *; subst log.
  - destruct Hend as [Hidx Hbudget].
    assert (Hlen : length (calls st) = Z.to_nat n).
    { rewrite <- (length_fmap call_index), Hidx. apply length_seq. }
    split; [rewrite Hlen; exact Hidx|].
    right. exists n, min. split; [reflexivity|]. split; [exact Hmin|]. split; [lia|].
    left. eexists. split; [reflexivity|]. split; [exact Hlen | exact Hbudget].
  - destruct Hend as (done & i & rest & Hsplit & Hcase).
    apply seq_split_at in Hsplit as (Hdone & Hi & Hlt).
    destruct Hcase as [[Hidx Hprep]|(Hidx & Hoe & (c & Hlast & Hc) & Hbudget)].
    + assert (Hlen : length (calls st) = length done)
        by (rewrite <- (length_fmap call_index), Hidx; reflexivity).
      split; [rewrite Hlen, Hidx; exact Hdone|].
      right. exists n, min. split; [reflexivity|]. split; [exact Hmin|]. split; [lia|].
      right. left. exists e. split; [reflexivity|]. rewrite Hlen, <- Hi. split; [lia | exact Hprep].
    + assert (Hlen : length (calls st) = S (length done)).
      { rewrite <- (length_fmap call_index), Hidx, length_app. simpl. lia. }
      split.
      { rewrite Hlen, Hidx, seq_S, <- Hdone, Hi. reflexivity. }
      right. exists n, min. split; [reflexivity|]. split; [exact Hmin|]. split; [lia|].
      right. right. exists e, c. repeat split; assumption.
Qed.

End Course.

Section Budget.

Context {World : Type} (rt : Runtime World).
Variable self : ArrayNode.
Variable kwargs : gmap string pyval.

Lemma failed_count_bounds w :
  let st := snd (local_execute rt self kwargs w) in
  0 <= failed_count st <= Z.of_nat (length (calls st)).
Proof.
  pose proof (local_execute_log rt self kwargs w) as Hlog.
  destruct (local_execute rt self kwargs w) as [res st]. simpl.
  destruct Hlog as (_ & _ & _ & _ & Hfc). rewrite Hfc.
  pose proof (failures_nonneg (calls st)). pose proof (failures_le_length (calls st)).
  destruct (outputs_expected self); lia.
Qed.

(** No index is tried twice and none is skipped: the sub-invocations a call
    makes are those of indices 0, 1, 2, ... in this order, at most N of them,
    none when the scan raises; and the failures counted are never more than
    the calls made. *)
Theorem no_retry_no_gap w :
  let st := snd (local_execute rt self kwargs w) in
  call_index <$> calls st = seq 0 (length (calls st))
  /\ (forall n, mapped_entity_count rt self kwargs = Ok n ->
        (length (calls st) <= Z.to_nat n)%nat)
  /\ (forall e, mapped_entity_count rt self kwargs = Raise e -> calls st = [])
  /\ 0 <= failed_count st <= Z.of_nat (length (calls st)).
Proof.
  intros st. pose proof (local_execute_cases rt self kwargs w) as [Hidx Hcases].
  fold st in Hidx, Hcases.
  split; [exact Hidx|]. split; [|split; [|apply failed_count_bounds]].
  - intros n Hn. destruct Hcases as [(e & Hrun & _)|(n' & min & Hn' & _ & Hle & _)].
    + unfold st. rewrite Hrun. simpl. lia.
    + congruence.
  - intros e He. destruct Hcases as [(e' & Hrun & _)|(n' & min & Hn' & _)].
    + unfold st. rewrite Hrun. reflexivity.
    + congruence.
Qed.

(** Where an exception of a call comes from.  It is the exception of a
    sub-invocation only when an output is expected and the budget is
    exhausted, and then of the last sub-invocation made.  Any other comes
    from the scan, from the threshold, or from building or translating the
    inputs of the next index, and no budget tolerates these. *)
Theorem raised_error_origin w e :
  let run := local_execute rt self kwargs w in
  fst run = Raise e ->
  mapped_entity_count rt self kwargs = Raise e
  \/ (exists n, mapped_entity_count rt self kwargs = Ok n /\ min_successes self n = Raise e)
  \/ preparation_raises rt self kwargs (length (calls (snd run))) e
  \/ (outputs_expected self = true
      /\ exists c n min,
           last (calls (snd run)) = Some c /\ call_outcome c = Failed e
           /\ mapped_entity_count rt self kwargs = Ok n
           /\ min_successes self n = Ok min
           /\ n - failed_count (snd run) < min).
Proof.
  intros run Hraise. pose proof (local_execute_cases rt self kwargs w) as [_ Hcases].
  fold run in Hcases.
  destruct Hcases as [(e' & Hrun & Hwhy)|(n & min & Hn & Hmin & _ & Hcase)].
  - rewrite Hrun in Hraise. injection Hraise as ->.
    destruct Hwhy as [H|H]; [by left | right; by left].
  - destruct Hcase as [(out & Hout & _)|[(e' & He' & _ & Hprep)|(e' & c & He' & Hoe & Hlast & Hc & Hlt)]].
    + congruence.
    + assert (e' = e) by congruence. subst e'. right. right. by left.
    + assert (e' = e) by congruence. subst e'. right. right. right.
      split; [exact Hoe|]. exists c, n, min. repeat split; assumption.
Qed.

(** A threshold that is not positive, as [min_successes=-1] gives, is never
    missed: no failure of the target makes the call raise, and when the
    inputs of every index can be prepared the call makes all N
    sub-invocations and returns. *)
Theorem nonpositive_threshold_never_aborts w n min :
  mapped_entity_count rt self kwargs = Ok n ->
  min_successes self n = Ok min ->
  min <= 0 ->
  let run := local_execute rt self kwargs w in
  (forall e, fst run = Raise e ->
     preparation_raises rt self kwargs (length (calls (snd run))) e)
  /\ ((forall i e, (i < Z.to_nat n)%nat -> ~ preparation_raises rt self kwargs i e) ->
      exists out, fst run = Ok out /\ length (calls (snd run)) = Z.to_nat n).
Proof.
  intros Hn Hmin Hle run.
  pose proof (local_execute_cases rt self kwargs w) as [_ Hcases].
  pose proof (failed_count_bounds w) as Hfc.
  pose proof (count_mapped_nonneg rt self kwargs _ _ Hn) as Hn0.
  fold run in Hcases, Hfc. simpl in Hfc.
  destruct Hcases as [(e' & Hrun & [H|(n' & Hn' & H)])|(n' & min' & Hn' & Hmin' & Hlen & Hcase)];
    try congruence.
  assert (n' = n) by congruence. subst n'. assert (min' = min) by congruence. subst min'.
  destruct Hcase as [(out & Hout & Hall & _)|[(e' & He' & Hlt & Hprep)|(e' & c & He' & _ & _ & _ & Hlt)]].
  - split; [intros e He; congruence|]. intros _. exists out. split; assumption.
  - split.
    + intros e He. assert (e' = e) by congruence. subst e'. exact Hprep.
    + intros Hok. exfalso. exact (Hok _ _ Hlt Hprep).
  - exfalso. lia.
Qed.

Lemma local_execute_budget w n min k c :
  outputs_expected self = true ->
  mapped_entity_count rt self kwargs = Ok n ->
  min_successes self n = Ok min ->
  let run := local_execute rt self kwargs w in
  calls (snd run) !! k = Some c -> is_failed c = true ->
  n - failures (take (S k) (calls (snd run))) < min ->
  S k = length (calls (snd run))
  /\ exists e, call_outcome c = Failed e /\ fst run = Raise e.
Proof.
  intros Hoe Hn Hmin run. destruct run as [res st] eqn:Hrun. simpl.
  intros Hk Hfail Hlt.
  subst run. unfold local_execute in Hrun. rewrite Hn, Hmin in Hrun.
  pose proof (for_range_budget rt self kwargs n min (range n) (mkState [] 0 w [])
                (calls st) k c Hoe) as Hbudget.
  simpl in Hbudget.
  destruct (for_range rt self kwargs n min (range n) (mkState [] 0 w [])) as [st1|e st1];
    injection Hrun as <- <-; simpl in Hbudget;
    destruct (Hbudget eq_refl Hk Hfail ltac:(lia)) as (Hlen & e' & He' & Hraise).
  - discriminate.
  - injection Hraise as <-. split; [exact Hlen|]. exists e. split; [exact He' | reflexivity].
Qed.

(** A threshold of N or more gives zero tolerance: while an output is
    expected, a sub-invocation that fails is the last one made and the call
    raises its exception; so a call that returns has seen no failure. *)
Theorem first_failure_aborts w n min :
  outputs_expected self = true ->
  mapped_entity_count rt self kwargs = Ok n ->
  min_successes self n = Ok min ->
  n <= min ->
  let run := local_execute rt self kwargs w in
  (forall k c, calls (snd run) !! k = Some c -> is_failed c = true ->
     S k = length (calls (snd run))
     /\ exists e, call_outcome c = Failed e /\ fst run = Raise e)
  /\ (forall out, fst run = Ok out -> failed_count (snd run) = 0).
Proof.
  intros Hoe Hn Hmin Hle run.
  assert (Hfirst : forall k c, calls (snd run) !! k = Some c -> is_failed c = true ->
             S k = length (calls (snd run))
             /\ exists e, call_outcome c = Failed e /\ fst run = Raise e).
  { intros k c Hk Hc. apply (local_execute_budget w n min k c Hoe Hn Hmin Hk Hc).
    pose proof (failures_take_pos _ k c Hk Hc). fold run. lia. }
  split; [exact Hfirst|].
  intros out Hout.
  pose proof (local_execute_log rt self kwargs w) as Hlog. fold run in Hlog.
  destruct run as [res st] eqn:Hrun. simpl in *. subst res.
  destruct Hlog as (_ & _ & _ & _ & Hfc). rewrite Hoe in Hfc. rewrite Hfc.
  unfold failures. destruct (filter is_failed (calls st)) as [|c l] eqn:Hf; [reflexivity|].
  exfalso.
  assert (Hin : c ∈ filter is_failed (calls st)) by (rewrite Hf; by left).
  apply list_elem_of_filter in Hin as [Hc Hin].
  apply list_elem_of_lookup in Hin as [k Hk].
  destruct (Hfirst k c Hk (Is_true_true_1 _ Hc)) as (_ & e & _ & He). discriminate.
Qed.

(** What the budget guarantees of a call that returns: all N
    sub-invocations were made, and if any of them failed, the successes,
    N less the failures, are still at least the threshold.  A call without
    failure returns even under a threshold above N. *)
Theorem returned_meets_threshold w n min out :
  outputs_expected self = true ->
  mapped_entity_count rt self kwargs = Ok n ->
  min_successes self n = Ok min ->
  let run := local_execute rt self kwargs w in
  fst run = Ok out ->
  length (calls (snd run)) = Z.to_nat n
  /\ failed_count (snd run) = failures (calls (snd run))
  /\ (0 < failures (calls (snd run)) -> min <= n - failures (calls (snd run))).
Proof.
  intros Hoe Hn Hmin run Hout.
  pose proof (local_execute_log rt self kwargs w) as Hlog.
  pose proof (local_execute_cases rt self kwargs w) as [_ Hcases].
  fold run in Hlog, Hcases. destruct run as [res st]. simpl in *. subst res.
  destruct Hlog as (_ & _ & _ & _ & Hfc). rewrite Hoe in Hfc.
  destruct Hcases as [(e & [=] & _)|(n' & min' & Hn' & Hmin' & _ & Hcase)].
  assert (n' = n) by congruence. subst n'. assert (min' = min) by congruence. subst min'.
  destruct Hcase as [(out' & _ & Hall & Hbudget)|[(e & [=] & _)|(e & c & [=] & _)]].
  split; [exact Hall|]. split; [exact Hfc|]. rewrite <- Hfc. exact Hbudget.
Qed.

End Budget.

Section Inputs.

Context {World : Type} (rt : Runtime World).
Variable self : ArrayNode.
Variable kwargs : gmap string pyval.

Lemma call_was_prepared w c :
  c ∈ calls (snd (local_execute rt self kwargs w)) ->
  single_instance_inputs self kwargs (call_index c) = Ok (call_inputs c).
Proof.
  intros Hc. pose proof (local_execute_log rt self kwargs w) as Hlog.
  destruct (local_execute rt self kwargs w) as [res st]. simpl in Hc.
  destruct Hlog as (Hprep & _). rewrite Forall_forall in Hprep.
  exact (proj1 (Hprep c Hc)).
Qed.

Lemma call_index_below w c :
  c ∈ calls (snd (local_execute rt self kwargs w)) ->
  (call_index c < length (calls (snd (local_execute rt self kwargs w))))%nat.
Proof.
  intros Hc. pose proof (local_execute_cases rt self kwargs w) as [Hidx _]. simpl in Hidx.
  apply list_elem_of_lookup in Hc as [j Hj].
  assert (Hi : (call_index <$> calls (snd (local_execute rt self kwargs w))) !! j
               = Some (call_index c)) by (rewrite list_lookup_fmap, Hj; reflexivity).
  rewrite Hidx in Hi. apply lookup_seq in Hi as [-> Hlt]. simpl. exact Hlt.
Qed.

(** Every sub-invocation gets exactly the declared inputs: a value under
    each declared name, and nothing under any other name. *)
Theorem call_inputs_domain w c :
  c ∈ calls (snd (local_execute rt self kwargs w)) ->
  dom (call_inputs c) = list_to_set (keys (inputs (node_python_interface self))).
Proof.
  intros Hc. apply call_was_prepared in Hc. unfold single_instance_inputs in Hc.
  apply set_eq. intros k. rewrite elem_of_dom, elem_of_list_to_set.
  destruct (fill_inputs_lookup self kwargs _ _ _ _ Hc k) as [Hin Hout].
  split.
  - intros Hsome. destruct (decide (k ∈ keys (inputs (node_python_interface self))))
      as [Hk|Hk]; [exact Hk|].
    rewrite (Hout Hk), lookup_empty in Hsome. by destruct Hsome.
  - intros Hk. specialize (Hin Hk). destruct (decide (k ∈ _bound_inputs self)).
    + destruct Hin as [Hsome ->]. exact Hsome.
    + destruct Hin as (v & x & _ & _ & ->). eauto.
Qed.

(** A mapped list shorter than N is not caught by the scan but stops the
    call: it never returns, and it makes no more sub-invocations than the
    list has elements. *)
Theorem shorter_mapped_list_raises w k items n :
  k ∈ keys (inputs (node_python_interface self)) ->
  k ∉ _bound_inputs self ->
  kwargs !! k = Some (PList items) ->
  mapped_entity_count rt self kwargs = Ok n ->
  (length items < Z.to_nat n)%nat ->
  let run := local_execute rt self kwargs w in
  (exists e, fst run = Raise e)
  /\ (length (calls (snd run)) <= length items)%nat.
Proof.
  intros Hk Hb Hv Hn Hshort run.
  assert (Hle : (length (calls (snd run)) <= length items)%nat).
  { destruct (calls (snd run)) as [|c0 l] eqn:Hcalls; [simpl; lia|].
    assert (Hlast : exists c, last (calls (snd run)) = Some c).
    { rewrite Hcalls. destruct (last (c0 :: l)) eqn:Hl; [eauto|].
      apply last_None in Hl. discriminate. }
    destruct Hlast as [c Hlast].
    pose proof Hlast as Hlookup. rewrite last_lookup in Hlookup.
    assert (Hc : c ∈ calls (snd run)) by (eapply list_elem_of_lookup_2; exact Hlookup).
    pose proof (call_was_prepared w c Hc) as Hprep. unfold single_instance_inputs in Hprep.
    destruct (fill_inputs_lookup self kwargs _ _ _ _ Hprep k) as [Hin _].
    specialize (Hin Hk). destruct (decide (k ∈ _bound_inputs self)); [contradiction|].
    destruct Hin as (v & x & Hv' & Hx & _). rewrite Hv in Hv'. injection Hv' as <-.
    simpl in Hx. destruct (items !! call_index c) eqn:Hi; [|discriminate].
    apply lookup_lt_Some in Hi.
    pose proof (local_execute_cases rt self kwargs w) as [Hidx _]. fold run in Hidx.
    simpl in Hidx.
    assert (Hci : (call_index <$> calls (snd run)) !! pred (length (calls (snd run)))
                  = Some (call_index c)) by (rewrite list_lookup_fmap, Hlookup; reflexivity).
    rewrite Hidx in Hci. apply lookup_seq in Hci as [Hci _]. simpl in Hci.
    rewrite <- Hcalls. lia. }
  split; [|exact Hle].
  pose proof (local_execute_cases rt self kwargs w) as [_ Hcases]. fold run in Hcases.
  destruct Hcases as [(e & Hrun & _)|(n' & min & Hn' & _ & _ & Hcase)].
  - exists e. rewrite Hrun. reflexivity.
  - assert (n' = n) by congruence. subst n'.
    destruct Hcase as [(out & _ & Hall & _)|[(e & He & _)|(e & c & He & _)]]; [lia | eauto | eauto].
Qed.

(** A bound input that is missing goes unnoticed by the scan; when there
    is something to map, the call raises before its first sub-invocation. *)
Theorem missing_bound_input_raises w k n :
  k ∈ keys (inputs (node_python_interface self)) ->
  k ∈ _bound_inputs self ->
  kwargs !! k = None ->
  mapped_entity_count rt self kwargs = Ok n ->
  0 < n ->
  exists e, local_execute rt self kwargs w = (Raise e, initial_state w).
Proof.
  intros Hk Hb Hv Hn Hpos.
  assert (Hnone : calls (snd (local_execute rt self kwargs w)) = []).
  { destruct (calls (snd (local_execute rt self kwargs w))) as [|c l] eqn:Hcalls; [reflexivity|].
    exfalso.
    assert (Hc : c ∈ calls (snd (local_execute rt self kwargs w))) by (rewrite Hcalls; by left).
    pose proof (call_was_prepared w c Hc) as Hprep. unfold single_instance_inputs in Hprep.
    destruct (fill_inputs_lookup self kwargs _ _ _ _ Hprep k) as [Hin _].
    specialize (Hin Hk). destruct (decide (k ∈ _bound_inputs self)); [|contradiction].
    destruct Hin as [[v Hsome] _]. congruence. }
  pose proof (local_execute_log rt self kwargs w) as Hlog.
  pose proof (local_execute_cases rt self kwargs w) as [_ Hcases].
  destruct (local_execute rt self kwargs w) as [res st]. simpl in *.
  destruct Hlog as (_ & _ & Hw & Hlit & Hfc). rewrite Hnone in Hw, Hlit, Hfc.
  assert (Hst : st = initial_state w).
  { destruct st as [l f w' cs]. simpl in *. subst cs w'. unfold initial_state.
    f_equal; [destruct (outputs_expected self); exact Hlit
             | destruct (outputs_expected self); exact Hfc]. }
  destruct Hcases as [(e & Hrun & _)|(n' & min & Hn' & _ & _ & Hcase)]; [eauto|].
  assert (n' = n) by congruence. subst n'.
  destruct Hcase as [(out & _ & Hall & _)|[(e & -> & _)|(e & c & -> & _)]].
  - rewrite Hnone in Hall. simpl in Hall. lia.
  - exists e. rewrite Hst. reflexivity.
  - exists e. rewrite Hst. reflexivity.
Qed.

(** What the target is called on: under each key a promise named after
    the key, carrying the literal that the translation of the inputs of this
    index gave for the key. *)
Theorem promises_named_after_keys w c k p :
  c ∈ calls (snd (local_execute rt self kwargs w)) ->
  call_literals c !! k = Some p ->
  var p = k
  /\ exists literal_map,
       translate_inputs_to_literals rt (call_inputs c) (target_inputs self) = Ok literal_map
       /\ literal_map !! k = Some (val p).
Proof.
  intros Hc Hp. pose proof (local_execute_log rt self kwargs w) as Hlog.
  destruct (local_execute rt self kwargs w) as [res st]. simpl in Hc.
  destruct Hlog as (Hprep & _). rewrite Forall_forall in Hprep.
  destruct (Hprep c Hc) as (_ & lm & Htr & Hlit).
  rewrite Hlit in Hp. unfold kwargs_literals in Hp. rewrite map_lookup_imap in Hp.
  destruct (lm !! k) as [v|] eqn:Hv; simpl in Hp; [|discriminate].
  injection Hp as <-. split; [reflexivity|]. exists lm. split; [exact Htr | exact Hv].
Qed.

End Inputs.

(** ** The factory and the graph's view *)

(** [array_node] makes a node exactly for a launch plan with at most one
    output, and what it raises otherwise is a [ValueError] in both cases.
    The node it makes has the count and the ratio in their own fields, no
    bound input, execution version 1 and no metadata, and the closure keeps
    the keyword arguments as given. *)
Theorem array_node_builds target c r ms kwargs :
  ((exists e, array_node target c r ms kwargs = Raise e)
   <-> kind target <> LaunchPlan
       \/ (1 < length (outputs (python_interface target)))%nat)
  /\ (forall e, array_node target c r ms kwargs = Raise e -> exists msg, e = ValueError msg)
  /\ (forall closure, array_node target c r ms kwargs = Ok closure ->
        closure_kwargs closure = kwargs
        /\ flyte_entity (closure_node closure) = target
        /\ _concurrency (closure_node closure) = c
        /\ _min_successes (closure_node closure) = ms
        /\ _min_success_ratio (closure_node closure) = r
        /\ _bound_inputs (closure_node closure) = ∅
        /\ _execution_version (closure_node closure) = Some 1
        /\ metadata (closure_node closure) = None).
Proof.
  unfold array_node, __init__. destruct (kind target) eqn:Hk.
  2,3: split; [split; [intros _; left; discriminate | eauto]
              | split; [intros e [= <-]; eauto | discriminate]].
  case_bool_decide as Hn; simpl.
  - split; [split; [intros _; right; exact Hn | eauto]|].
    split; [intros e [= <-]; eauto | discriminate].
  - split.
    { split; [intros [e He]; discriminate | intros [H|H]; [congruence | contradiction]]. }
    split; [discriminate|].
    intros closure [= <-]. simpl. repeat split; reflexivity.
Qed.

(** The graph's view of a node that was built: it goes by the name of its
    target, which it holds unchanged, and has no bindings and no upstream
    nodes; the metadata given to the constructor is kept in the node but
    [construct_node_metadata] does not use it. *)
Theorem graph_identity t c ms r b v md self :
  __init__ t c ms r b v md = Ok self ->
  node_name self = name t
  /\ id self = name t
  /\ flyte_entity self = t
  /\ bindings self = []
  /\ upstream_nodes self = []
  /\ local_execution_mode self = LOCAL_TASK_EXECUTION
  /\ metadata self = md
  /\ construct_node_metadata self = NodeMetadata (name t).
Proof.
  intros Hinit. apply init_builds in Hinit as (-> & _). repeat split; reflexivity.
Qed.

(** Local execution never reads the concurrency: nodes built alike but for
    it are built or refused alike and execute alike. *)
Theorem concurrency_not_read {World : Type} (rt : Runtime World) t c c' ms r b v md :
  match __init__ t c ms r b v md, __init__ t c' ms r b v md with
  | Ok self, Ok self' =>
      forall kwargs w, local_execute rt self kwargs w = local_execute rt self' kwargs w
  | Raise e, Raise e' => e = e'
  | _, _ => False
  end.
Proof.
  destruct (__init__ t c ms r b v md) as [self|e] eqn:H0;
    destruct (__init__ t c' ms r b v md) as [self'|e'] eqn:H1.
  - apply init_builds in H0 as (-> & _), H1 as (-> & _).
    intros kwargs w. apply local_execute_reads; reflexivity.
  - exfalso. revert H0 H1. unfold __init__. case_bool_decide; [discriminate|].
    destruct (kind t); try discriminate.
    destruct (negb _); [discriminate|]. destruct md as [[?|?]|]; discriminate.
  - exfalso. revert H0 H1. unfold __init__. case_bool_decide; [discriminate|].
    destruct (kind t); try discriminate.
    destruct (negb _); [discriminate|]. destruct md as [[?|?]|]; discriminate.
  - revert H0 H1. unfold __init__. case_bool_decide; [congruence|].
    destruct (kind t); try congruence.
    destruct (negb _); [congruence|]. destruct md as [[?|?]|]; simpl; congruence.
Qed.

(** ** The further properties, run *)

(** N is the length of the only mapped list. *)
Lemma mapped_entity_count_is_witness :
  mapped_entity_count Scenario.runtime Runs.strict (Runs.x_is [5; 6]) = Ok 2.
Proof.
  apply (proj2 (mapped_entity_count_is Scenario.runtime Runs.strict (Runs.x_is [5; 6]) 2)).
  right. exists [], "x"%string, [], (PInt 5), [PInt 6], T_int.
  repeat split; try reflexivity.
  - constructor.
  - apply not_elem_of_empty.
Defined.

(** An undeclared [z] changes nothing. *)
Lemma undeclared_kwargs_ignored_witness :
  local_execute Scenario.runtime Runs.strict (<["z"%string := PInt 9]> (Runs.x_is [1; 2])) 0%nat
  = local_execute Scenario.runtime Runs.strict (Runs.x_is [1; 2]) 0%nat.
Proof.
  apply undeclared_kwargs_ignored.
  intros k Hk. apply list_elem_of_singleton in Hk. subst k. reflexivity.
Defined.

(** A third element of [y] is never read when N = 2. *)
Lemma elements_beyond_N_ignored_witness :
  local_execute Scenario.runtime MoreRuns.both_mapped
    (<["y"%string := PList ([PInt 10; PInt 20] ++ [PInt 30])]> (MoreRuns.xy [1; 2] [10; 20])) 0%nat
  = local_execute Scenario.runtime MoreRuns.both_mapped (MoreRuns.xy [1; 2] [10; 20]) 0%nat.
Proof.
  apply (elements_beyond_N_ignored Scenario.runtime MoreRuns.both_mapped
           (MoreRuns.xy [1; 2] [10; 20]) 0%nat "y" [PInt 10; PInt 20] [PInt 30] 2).
  - apply not_elem_of_empty.
  - reflexivity.
  - vm_compute. reflexivity.
  - vm_compute. reflexivity.
  - simpl. lia.
Defined.

(** The calls of scenario C are those of indices 0 and 1. *)
Lemma no_retry_no_gap_witness :
  call_index <$> calls (snd (local_execute Scenario.runtime Runs.tolerant
                               (Runs.x_is [-1; -1; -1; 1]) 0%nat))
  = seq 0 (length (calls (snd (local_execute Scenario.runtime Runs.tolerant
                                 (Runs.x_is [-1; -1; -1; 1]) 0%nat)))).
Proof.
  apply (proj1 (no_retry_no_gap Scenario.runtime Runs.tolerant (Runs.x_is [-1; -1; -1; 1]) 0%nat)).
Defined.

(** What scenario C raises is the failure of its last call. *)
Lemma raised_error_origin_witness :
  let run := local_execute Scenario.runtime Runs.tolerant (Runs.x_is [-1; -1; -1; 1]) 0%nat in
  mapped_entity_count Scenario.runtime Runs.tolerant (Runs.x_is [-1; -1; -1; 1])
  = Raise (TaskFailure (-1))
  \/ (exists n, mapped_entity_count Scenario.runtime Runs.tolerant (Runs.x_is [-1; -1; -1; 1]) = Ok n
                /\ min_successes Runs.tolerant n = Raise (TaskFailure (-1)))
  \/ preparation_raises Scenario.runtime Runs.tolerant (Runs.x_is [-1; -1; -1; 1])
       (length (calls (snd run))) (TaskFailure (-1))
  \/ (outputs_expected Runs.tolerant = true
      /\ exists c n min,
           last (calls (snd run)) = Some c /\ call_outcome c = Failed (TaskFailure (-1))
           /\ mapped_entity_count Scenario.runtime Runs.tolerant (Runs.x_is [-1; -1; -1; 1]) = Ok n
           /\ min_successes Runs.tolerant n = Ok min
           /\ n - failed_count (snd run) < min).
Proof.
  apply (raised_error_origin Scenario.runtime Runs.tolerant (Runs.x_is [-1; -1; -1; 1]) 0%nat).
  vm_compute. reflexivity.
Defined.

(** With [min_successes=-1] two failures out of two are tolerated. *)
Lemma nonpositive_threshold_never_aborts_witness :
  exists out,
    fst (local_execute Scenario.runtime MoreRuns.lenient (Runs.x_is [-1; -1]) 0%nat) = Ok out
    /\ length (calls (snd (local_execute Scenario.runtime MoreRuns.lenient
                             (Runs.x_is [-1; -1]) 0%nat))) = Z.to_nat 2.
Proof.
  apply (proj2 (nonpositive_threshold_never_aborts Scenario.runtime MoreRuns.lenient
                  (Runs.x_is [-1; -1]) 0%nat 2 (-1) eq_refl eq_refl ltac:(lia))).
  intros i e Hi [H|(native & Hin & Htr)].
  - destruct i as [|[|i]]; [vm_compute in H; discriminate | vm_compute in H; discriminate|].
    simpl in Hi. lia.
  - destruct i as [|[|i]]; [| |simpl in Hi; lia].
    + vm_compute in Hin. injection Hin as <-. vm_compute in Htr. discriminate.
    + vm_compute in Hin. injection Hin as <-. vm_compute in Htr. discriminate.
Defined.

(** Without tolerance the failure at index 1 is the last call. *)
Lemma first_failure_aborts_witness :
  let run := local_execute Scenario.runtime Runs.strict (Runs.x_is [1; -2; 3]) 0%nat in
  length (calls (snd run)) = 2%nat /\ fst run = Raise (TaskFailure (-2)).
Proof.
  intros run.
  destruct (proj1 (first_failure_aborts Scenario.runtime Runs.strict (Runs.x_is [1; -2; 3])
                     0%nat 3 3 eq_refl eq_refl eq_refl ltac:(lia))
              1%nat (default (Runs.first_call Runs.strict (Runs.x_is [1; -2; 3]))
                       (calls (snd run) !! 1%nat)))
    as (Hlen & e & He & Hraise).
  - vm_compute. reflexivity.
  - vm_compute. reflexivity.
  - vm_compute in He. injection He as <-. split; [symmetry; exact Hlen | exact Hraise].
Defined.

(** Scenario A returns with one failure: three successes, the threshold. *)
Lemma returned_meets_threshold_witness :
  let run := local_execute Scenario.runtime Runs.tolerant (Runs.x_is [1; 2; 3; -1]) 0%nat in
  length (calls (snd run)) = Z.to_nat 4 /\ 3 <= 4 - failures (calls (snd run)).
Proof.
  intros run.
  destruct (returned_meets_threshold Scenario.runtime Runs.tolerant (Runs.x_is [1; 2; 3; -1])
              0%nat 4 3
              (APromise (mkPromise "o0" (Literal_collection
                 [Scenario.r 1; Scenario.r 2; Scenario.r 3; literal_with_none])))
              eq_refl eq_refl eq_refl)
    as (Hlen & _ & Hbudget).
  - vm_compute. reflexivity.
  - split; [exact Hlen|]. apply Hbudget. vm_compute. reflexivity.
Defined.

(** A threshold of 10 for two inputs does not stop a call without failure. *)
Example threshold_above_N_returns :
  let self := built (__init__ Scenario.int_to_int None (Some 10) None None None None) in
  min_successes self 2 = Ok 10
  /\ fst (local_execute Scenario.runtime self (Runs.x_is [1; 2]) 0%nat)
     = Ok (APromise (mkPromise "o0" (Literal_collection [Scenario.r 1; Scenario.r 2]))).
Proof. vm_compute. auto. Qed.

(** The first call of a run with [y] bound has the inputs [x] and [y]. *)
Lemma call_inputs_domain_witness :
  dom (call_inputs (Runs.first_call MoreRuns.y_bound
                      (<["y"%string := PInt 7]> (Runs.x_is [1; 2]))))
  = list_to_set (keys (inputs (node_python_interface MoreRuns.y_bound))).
Proof.
  apply (call_inputs_domain Scenario.runtime MoreRuns.y_bound
           (<["y"%string := PInt 7]> (Runs.x_is [1; 2])) 0%nat).
  apply (list_elem_of_lookup_2 _ 0%nat). vm_compute. reflexivity.
Defined.

(** [y] has one element where [x] has three: one call, then an error. *)
Lemma shorter_mapped_list_raises_witness :
  let run := local_execute Scenario.runtime MoreRuns.both_mapped (MoreRuns.xy [1; 2; 3] [10]) 0%nat in
  (exists e, fst run = Raise e) /\ (length (calls (snd run)) <= 1)%nat.
Proof.
  apply (shorter_mapped_list_raises Scenario.runtime MoreRuns.both_mapped
           (MoreRuns.xy [1; 2; 3] [10]) 0%nat "y" [PInt 10] 3).
  - apply list_elem_of_further, list_elem_of_here.
  - apply not_elem_of_empty.
  - reflexivity.
  - vm_compute. reflexivity.
  - simpl. lia.
Defined.

(** [y] is bound but not given: the call raises before any sub-invocation. *)
Lemma missing_bound_input_raises_witness :
  exists e, local_execute Scenario.runtime MoreRuns.y_bound (Runs.x_is [1; 2]) 5%nat
            = (Raise e, initial_state 5%nat).
Proof.
  apply (missing_bound_input_raises Scenario.runtime MoreRuns.y_bound (Runs.x_is [1; 2])
           5%nat "y" 2).
  - apply list_elem_of_further, list_elem_of_here.
  - vm_compute. reflexivity.
  - reflexivity.
  - vm_compute. reflexivity.
  - lia.
Defined.

(** The promise under [x] in the first call of scenario A is named [x]. *)
Lemma promises_named_after_keys_witness :
  var (mkPromise "x" (Literal_scalar (Primitive_integer 1))) = "x"%string
  /\ exists literal_map,
       translate_inputs_to_literals Scenario.runtime
         (call_inputs (Runs.first_call Runs.tolerant (Runs.x_is [1; 2; 3; -1])))
         (target_inputs Runs.tolerant) = Ok literal_map
       /\ literal_map !! "x"%string
          = Some (val (mkPromise "x" (Literal_scalar (Primitive_integer 1)))).
Proof.
  apply (promises_named_after_keys Scenario.runtime Runs.tolerant (Runs.x_is [1; 2; 3; -1])
           0%nat (Runs.first_call Runs.tolerant (Runs.x_is [1; 2; 3; -1])) "x").
  - apply (list_elem_of_lookup_2 _ 0%nat). vm_compute. reflexivity.
  - vm_compute. reflexivity.
Defined.


(** A task is refused by the factory with a [ValueError]. *)
Lemma array_node_builds_witness :
  exists e, array_node (mkEntity PythonTask "t" (mkInterface [] [])) None None None ∅ = Raise e.
Proof.
  apply (proj2 (proj1 (array_node_builds _ None None None ∅))).
  left. discriminate.
Defined.

(** A node built with metadata of another name still reports its target's. *)
Lemma graph_identity_witness :
  let self := built (__init__ Scenario.int_to_int None None None None None
                       (Some (NodeMetadata "other"))) in
  metadata self = Some (NodeMetadata "other")
  /\ construct_node_metadata self = NodeMetadata "lp".
Proof.
  intros self.
  pose proof (graph_identity Scenario.int_to_int None None None None None
                (Some (NodeMetadata "other")) self eq_refl) as H.
  split; [apply H | apply H].
Defined.

(** * The jupyter decorator *)

Module JupyterFacts.
Import Jupyter.

(** What [exit_handler] ends up calling.  Under decorators other than
    [jupyter], either there is a [jupyter] and the callable it wraps is
    called, with whatever decorators that one has; or there is none and the
    innermost function is called, all decorators stripped. *)
Theorem unwrap_reaches (f : callable) :
  (exists outer inner,
     Forall (fun d => d <> JupyterDecorator) outer
     /\ f = decorate outer (Decorated JupyterDecorator inner)
     /\ unwrap f = inner)
  \/ (exists outer function_name,
        Forall (fun d => d <> JupyterDecorator) outer
        /\ f = decorate outer (Function function_name)
        /\ unwrap f = Function function_name).
Proof.
  induction f as [function_name|d wrapped IH].
  - right. exists [], function_name. split; [constructor | split; reflexivity].
  - destruct d as [|decorator_name].
    + left. exists [], wrapped. split; [constructor | split; reflexivity].
    + destruct IH as [(outer & inner & Hall & -> & Hun)|(outer & fn & Hall & -> & Hun)].
      * left. exists (OtherDecorator decorator_name :: outer), inner.
        split; [constructor; [discriminate | exact Hall] | split; [reflexivity | exact Hun]].
      * right. exists (OtherDecorator decorator_name :: outer), fn.
        split; [constructor; [discriminate | exact Hall] | split; [reflexivity | exact Hun]].
Qed.

Section Effects.

Context {World : Type} (effect : action -> World -> result pyval * World).

(** The server is not launched when the decorator is disabled, when the
    execution is local, or when the task is run first and returns: the task
    function, as given, is called once, and its outcome is the outcome. *)
Theorem runs_task_only self is_local_execution w r w' :
  effect (CallTask (task_function self)) w = (r, w') ->
  enable self = false \/ is_local_execution = true
    \/ (run_task_first self = true /\ exists v, r = Ok v) ->
  execute effect self is_local_execution (w, [])
  = (r, (w', [CallTask (task_function self)])).
Proof.
  intros Hcall Hwhy. unfold execute, perform. simpl. rewrite Hcall.
  destruct (negb (enable self) || is_local_execution) eqn:Hskip; [reflexivity|].
  apply orb_false_iff in Hskip as [Hen Hloc]. apply negb_false_iff in Hen.
  destruct Hwhy as [H|[H|[Hfirst (v & ->)]]]; [congruence | congruence|].
  rewrite Hfirst. reflexivity.
Qed.

(** When the decorator is enabled and the execution is not local, the
    actions happen in the order of the plan, none skipped: the first attempt
    if asked for, the pre-execute hook, the start of the server, the example
    notebook, the wait for the server, the post-execute hook, the task
    function unwrapped.  An execution that returns has gone through the whole
    plan, or has stopped after a first attempt that returned. *)
Theorem launch_follows_plan self w :
  enable self = true ->
  let '(r, (_, trace)) := execute effect self false (w, []) in
  trace `prefix_of` plan self
  /\ trace <> []
  /\ ((exists v, r = Ok v) ->
      trace = plan self
      \/ (run_task_first self = true /\ trace = [CallTask (task_function self)])).
Proof.
  intros Hen. unfold execute, launch, exit_handler, seq_m, perform, plan, hook_call.
  rewrite Hen. simpl.
  destruct (run_task_first self), (_pre_execute self) as [pre|], (_post_execute self) as [post|];
    simpl;
    repeat (match goal with
            | |- context [effect ?a ?x] => destruct (effect a x) as [[?|?] ?]; simpl
            end);
    (split; [eexists; reflexivity | split; [discriminate|]]);
    first [ intros _; left; reflexivity
          | intros _; right; split; reflexivity
          | intros [? [=]] ].
Qed.

(** With [run_task_first], a task that raises is called a second time once
    the server has ended, unwrapped this time, and the outcome of the
    execution is that of the second call. *)
Theorem failed_first_attempt_is_retried self w e w1 r w2 trace :
  enable self = true ->
  run_task_first self = true ->
  effect (CallTask (task_function self)) w = (Raise e, w1) ->
  execute effect self false (w, []) = (r, (w2, trace)) ->
  (exists v, r = Ok v) ->
  trace = plan self
  /\ exists w', effect (CallTask (unwrap (task_function self))) w' = (r, w2).
Proof.
  intros Hen Hfirst Hcall. unfold execute, launch, exit_handler, seq_m, perform, plan, hook_call.
  rewrite Hen, Hfirst. simpl. rewrite Hcall. simpl.
  destruct (_pre_execute self) as [pre|], (_post_execute self) as [post|]; simpl;
    repeat (match goal with
            | |- context [effect ?a ?x] =>
                lazymatch a with
                | CallTask (unwrap _) => fail
                | _ => destruct (effect a x) as [[?|?] ?]; simpl
                end
            end);
    try (intros [= <- <- <-] [? [=]]);
    match goal with
    | |- context [effect (CallTask (unwrap (task_function self))) ?x] =>
        destruct (effect (CallTask (unwrap (task_function self))) x) as [r' w''] eqn:Hlast
    end;
    intros [= <- <- <-] _; (split; [reflexivity | eauto]).
Qed.

End Effects.

End JupyterFacts.

(** ** The decorator, run *)

Example server_command_of_remote :
  Jupyter.server_command JupyterRuns.remote
  = "jupyter notebook --port 8888 --notebook-dir=/root --NotebookApp.token='' --NotebookApp.shutdown_no_activity_timeout=3600"%string.
Proof. vm_compute. reflexivity. Qed.

(** Disabled: the decorated task is called as it is, once. *)
Lemma runs_task_only_witness :
  Jupyter.execute JupyterRuns.flaky JupyterRuns.disabled false (1%nat, [])
  = (Ok (PInt 42), (2%nat, [Jupyter.CallTask JupyterRuns.train])).
Proof.
  apply (JupyterFacts.runs_task_only JupyterRuns.flaky JupyterRuns.disabled false 1%nat
           (Ok (PInt 42)) 2%nat eq_refl).
  left. reflexivity.
Defined.

(** The remote run goes through the whole plan. *)
Lemma launch_follows_plan_witness :
  snd (snd (Jupyter.execute JupyterRuns.flaky JupyterRuns.remote false (0%nat, [])))
  `prefix_of` Jupyter.plan JupyterRuns.remote.
Proof.
  pose proof (JupyterFacts.launch_follows_plan JupyterRuns.flaky JupyterRuns.remote 0%nat eq_refl)
    as H.
  destruct (Jupyter.execute JupyterRuns.flaky JupyterRuns.remote false (0%nat, []))
    as [r [w trace]].
  exact (proj1 H).
Defined.

(** The task raises at first, the server runs, and the function under the
    decorator [traced] is called in the end. *)
Lemma failed_first_attempt_is_retried_witness :
  snd (snd (Jupyter.execute JupyterRuns.flaky JupyterRuns.remote false (0%nat, [])))
  = Jupyter.plan JupyterRuns.remote.
Proof.
  apply (JupyterFacts.failed_first_attempt_is_retried JupyterRuns.flaky JupyterRuns.remote
           0%nat (TaskFailure 1) 1%nat (Ok (PInt 42)) 6%nat _ eq_refl eq_refl eq_refl).
  - vm_compute. reflexivity.
  - eexists. reflexivity.
Defined.
